(** * Price cache service of [app/api/btc-prices/route.js]

    A shallow embedding of the route handler: the two "closest data point"
    scans, the upstream fetch pipeline [fetchFromCoinGecko] and the
    single-flight cache of [GET], followed by the properties that the
    written specification states about them. *)

From Stdlib Require Import ZArith Ascii String List Bool Lia DecimalString.
From Stdlib Require Import Permutation.
From Stdlib Require Import Floats.SpecFloat.
Import ListNotations.
Open Scope Z_scope.

#[local] Set Warnings "-register-all".

(** ** JavaScript numbers

    A JavaScript number is an IEEE 754 binary64 value.  The standard
    library's [spec_float] is that format (53 bits of precision, infinities at
    exponent 1024) with one NaN; its operations round to nearest, ties to
    even, as the JavaScript operators do. *)

Module Num.

Definition number := spec_float.

Definition prec : Z := 53.
Definition emax : Z := 1024.

Definition NaN : number := S754_nan.
Definition Infinity : number := S754_infinity false.

(** [x - y], [x * y], [x / y], [Math.abs(x)], [x < y], [x <= y]. *)
Definition sub (x y : number) : number := SFsub prec emax x y.
Definition mul (x y : number) : number := SFmul prec emax x y.
Definition div (x y : number) : number := SFdiv prec emax x y.
Definition abs (x : number) : number := SFabs x.
Definition ltb (x y : number) : bool := SFltb x y.
Definition leb (x y : number) : bool := SFleb x y.

(** The number that an integer literal or an integral time value denotes
    (exact below 2^53, correctly rounded above). *)
Definition of_Z (z : Z) : number := binary_normalize prec emax z 0 false.

(** The number that the decimal literal [n/d] denotes when [n] and [d] are
    exactly representable: the correctly rounded quotient. *)
Definition dec (n d : Z) : number := div (of_Z n) (of_Z d).

Definition is_nan (x : number) : bool :=
  match x with S754_nan => true | _ => false end.

Definition zero : number := S754_zero false.

(** [Math.round(x)]: the integral number closest to [x], the one nearer to
    +Infinity on a tie; NaN, the infinities, the zeros and integral numbers
    are returned as they are.  For [x = ±m·2^e] with [e < 0] the integer is
    [floor (x + 1/2) = floor ((±2m + 2^-e) / 2^(1-e))]; a negative [x] that
    rounds to zero gives -0. *)
Definition round_half_up (s : bool) (m : positive) (e : Z) : Z :=
  (2 * cond_Zopp s (Zpos m) + 2 ^ (- e)) / 2 ^ (1 - e).

Definition Math_round (x : number) : number :=
  match x with
  | S754_finite s m e =>
      if 0 <=? e then x
      else binary_normalize prec emax (round_half_up s m e) 0 s
  | _ => x
  end.


(** A number in the canonical form of the format; every number that
    arithmetic or the parsing of a literal produces is one. *)
Definition valid (x : number) : bool := valid_binary prec emax x.

(** The integer that an integral number equals. *)
Definition to_Z (x : number) : option Z :=
  match x with
  | S754_zero _ => Some 0
  | S754_finite s m e =>
      if 0 <=? e then Some (cond_Zopp s (Zpos m * 2 ^ e))
      else if Zpos m mod 2 ^ (- e) =? 0
           then Some (cond_Zopp s (Zpos m / 2 ^ (- e)))
           else None
  | _ => None
  end.

(** [n] is the integer nearest to the finite number [x], the greater of the
    two on a tie: [n - 1/2 <= x < n + 1/2]. *)
Definition nearest_integer (x : number) (n : Z) : Prop :=
  match x with
  | S754_zero _ => n = 0
  | S754_finite s m e =>
      if 0 <=? e then n = cond_Zopp s (Zpos m * 2 ^ e)
      else (2 * n - 1) * 2 ^ (- e) <= 2 * cond_Zopp s (Zpos m)
           < (2 * n + 1) * 2 ^ (- e)
  | _ => False
  end.

(** [y] is [x] rounded to the nearest integer; an infinity or NaN is left as
    it is. *)
Definition rounded (x y : number) : Prop :=
  match x with
  | S754_zero _ | S754_finite _ _ _ =>
      exists n, to_Z y = Some n /\ nearest_integer x n
  | _ => y = x
  end.

End Num.

Abbreviation number := Num.number.

(** ** JavaScript values, as [Response.json()] produces them *)

Inductive JSValue : Type :=
| JSUndefined
| JSNull
| JSBool (b : bool)
| JSNumber (x : number)
| JSString (s : string)
| JSArray (elems : list JSValue)
| JSObject (props : list (string * JSValue)).

(** ** The two scans

    Both loops carry the pair [(closest, closestDiff)], which starts as
    [(null, Infinity)]; [null] is [None]. *)

Definition ScanState : Type := option number * number.

Definition scan_init : ScanState := (None, Num.Infinity).

(** One iteration of the loop of [pickClosestCandleClose]:
    Coinbase candles are [[timeSec, low, high, open, close, volume]]. *)
Definition pickClosestCandleClose_step (targetSec : number)
    (st : ScanState) (c : JSValue) : ScanState :=
  match c with
  | JSArray elems =>
      if (List.length elems <? 5)%nat then st
      else
        match nth 0 elems JSUndefined, nth 4 elems JSUndefined with
        | JSNumber timeSec, JSNumber close =>
            let diff := Num.abs (Num.sub timeSec targetSec) in
            if Num.ltb diff (snd st) then (Some close, diff) else st
        | _, _ => st
        end
  | _ => st
  end.

Definition pickClosestCandleClose (candles : list JSValue) (targetSec : number)
    : option number :=
  fst (fold_left (pickClosestCandleClose_step targetSec) candles scan_init).

(** One iteration of the loop of [pickClosestPrice]:
    prices are [[timestampMs, price]]. *)
Definition pickClosestPrice_step (targetMs : number)
    (st : ScanState) (entry : JSValue) : ScanState :=
  match entry with
  | JSArray elems =>
      if (List.length elems <? 2)%nat then st
      else
        match nth 0 elems JSUndefined, nth 1 elems JSUndefined with
        | JSNumber ts, JSNumber price =>
            let diff := Num.abs (Num.sub ts targetMs) in
            if Num.ltb diff (snd st) then (Some price, diff) else st
        | _, _ => st
        end
  | _ => st
  end.

Definition pickClosestPrice (prices : list JSValue) (targetMs : number)
    : option number :=
  fst (fold_left (pickClosestPrice_step targetMs) prices scan_init).

(** ** Well-formed candidates

    An entry takes part in a scan when it is an array that is long enough
    and holds numbers at the timestamp and value positions. *)

Definition price_candidate (entry : JSValue) : option (number * number) :=
  match entry with
  | JSArray (JSNumber ts :: JSNumber price :: _) => Some (ts, price)
  | _ => None
  end.

Definition candle_candidate (c : JSValue) : option (number * number) :=
  match c with
  | JSArray (JSNumber timeSec :: _ :: _ :: _ :: JSNumber close :: _) =>
      Some (timeSec, close)
  | _ => None
  end.

Definition is_candidate (candidate : JSValue -> option (number * number))
    (entry : JSValue) : bool :=
  match candidate entry with Some _ => true | None => false end.

(** [Math.abs(ts - target)] *)
Definition time_diff (target ts : number) : number :=
  Num.abs (Num.sub ts target).

(** A difference can replace the initial [closestDiff] only when it is
    strictly below [Infinity]. *)
Definition selectable (d : number) : Prop := Num.ltb d Num.Infinity = true.

Section Closest.
Variable candidate : JSValue -> option (number * number).
Variable target : number.

(** The loop shared by the two scans, over the candidates of [candidate]. *)
Definition scan_step (st : ScanState) (entry : JSValue) : ScanState :=
  match candidate entry with
  | Some (ts, v) =>
      if Num.ltb (time_diff target ts) (snd st)
      then (Some v, time_diff target ts) else st
  | None => st
  end.

Definition scan (l : list JSValue) : option number :=
  fst (fold_left scan_step l scan_init).

(** Entry [i] of [l] is a well-formed candidate of value [v] at distance [d]. *)
Definition candidate_at (l : list JSValue) (i : nat) (v d : number) : Prop :=
  exists entry ts, nth_error l i = Some entry
                /\ candidate entry = Some (ts, v)
                /\ d = time_diff target ts.

(** [v] is the value of the first candidate of minimal distance among the
    selectable ones: strictly closer than every selectable candidate before
    it, at least as close as every selectable candidate after it. *)
Definition first_closest (l : list JSValue) (v : number) : Prop :=
  exists i d, candidate_at l i v d /\ selectable d
    /\ forall j v' d', candidate_at l j v' d' -> selectable d' ->
         ((j < i)%nat -> Num.ltb d d' = true)
         /\ ((i < j)%nat -> Num.leb d d' = true).

(** The same without the restriction to selectable candidates: the reading
    under which every well-formed candidate competes. *)
Definition first_closest_of_all (l : list JSValue) (v : number) : Prop :=
  exists i d, candidate_at l i v d
    /\ forall j v' d', candidate_at l j v' d' ->
         ((j < i)%nat -> Num.ltb d d' = true)
         /\ ((i < j)%nat -> Num.leb d d' = true).

Definition none_selectable (l : list JSValue) : Prop :=
  forall i v d, candidate_at l i v d -> Num.ltb d Num.Infinity = false.

Definition no_candidate (l : list JSValue) : Prop :=
  forall entry, In entry l -> candidate entry = None.

(** What the loop knows after the entries of [l]. *)
Definition scan_inv (l : list JSValue) (st : ScanState) : Prop :=
  (st = scan_init /\ none_selectable l)
  \/ (exists i v, st = (Some v, snd st)
       /\ candidate_at l i v (snd st) /\ selectable (snd st)
       /\ forall j v' d', candidate_at l j v' d' -> selectable d' ->
            ((j < i)%nat -> Num.ltb (snd st) d' = true)
            /\ ((i < j)%nat -> Num.leb (snd st) d' = true)).
End Closest.

(** ** Errors, completions and JSON bodies *)

Record JSError : Type := { name : string; message : string }.

(** [new Error(msg)] *)
Definition Error (msg : string) : JSError :=
  {| name := "Error"; message := msg |}.

(** How an evaluation or a promise ends: with a value, or with a thrown
    (rejected) error. *)
Inductive Completion (A : Type) : Type :=
| Return (a : A)
| Throw (e : JSError).

Arguments Return {A} a.
Arguments Throw {A} e.

(** [v.k] for a property name that no prototype defines, and [v?.k]: the own
    property of an object, [undefined] otherwise (the keys of a parsed object
    are distinct). *)
Definition get_prop (v : JSValue) (k : string) : JSValue :=
  match v with
  | JSObject props =>
      match find (fun kv => String.eqb (fst kv) k) props with
      | Some kv => snd kv
      | None => JSUndefined
      end
  | _ => JSUndefined
  end.

(** The values that parsing a JSON text can give: no [undefined] and no NaN
    (an infinity arises from a literal beyond the binary64 range). *)
Fixpoint is_json (v : JSValue) : bool :=
  match v with
  | JSUndefined => false
  | JSNumber x => negb (Num.is_nan x)
  | JSArray elems => forallb is_json elems
  | JSObject props => forallb (fun kv => is_json (snd kv)) props
  | _ => true
  end.

(** ** The upstream services *)

Inductive Request : Type :=
| SimplePrice (baseUrl : string) (apiKeyHeader : option string)
    (* ${baseUrl}/simple/price?ids=bitcoin&vs_currencies=usd *)
| MarketChartRange (baseUrl : string) (apiKeyHeader : option string)
    (fromSec toSec : Z)
    (* ${baseUrl}/coins/bitcoin/market_chart/range
       ?vs_currency=usd&from=..&to=.. *)
| CoinbaseCandles (granularity startMs endMs : Z).
    (* api.exchange.coinbase.com/products/BTC-USD/candles
       ?granularity=..&start=<ISO of startMs>&end=<ISO of endMs> *)

Record Response : Type := {
  status : Z;
  statusText : string;
  json : Completion JSValue   (* what [res.json()] settles to *)
}.

(** [res.ok]: the status is in the range 200-299. *)
Definition ok (r : Response) : bool :=
  (200 <=? status r) && (status r <=? 299).

(** What [fetch] settles to for each request of one pipeline run. *)
Definition Upstream : Type := Request -> Completion Response.

(** ** The pipeline monad

    A computation reads the upstream, appends each request it issues to the
    log, and ends with a value or a thrown error. *)

Definition Fetching (A : Type) : Type :=
  Upstream -> list Request -> list Request * Completion A.

Definition ret {A : Type} (a : A) : Fetching A :=
  fun _ log => (log, Return a).

Definition throw {A : Type} (e : JSError) : Fetching A :=
  fun _ log => (log, Throw e).

Definition bind {A B : Type} (m : Fetching A) (k : A -> Fetching B)
    : Fetching B :=
  fun up log =>
    match m up log with
    | (log', Return a) => k a up log'
    | (log', Throw e) => (log', Throw e)
    end.

Definition fetch (req : Request) : Fetching Response :=
  fun up log => (log ++ [req], up req).

Definition await {A : Type} (c : Completion A) : Fetching A :=
  fun _ log => (log, c).

Notation "x <- m ;; k" := (bind m (fun x => k))
  (at level 61, m at next level, right associativity).

(** ** Configuration and the Date operations *)

Record Config : Type := {
  CACHE_TTL_SECONDS : number;          (* Number(env || 900) *)
  COINGECKO_BASE_URL : option string;  (* process.env.COINGECKO_BASE_URL *)
  COINGECKO_API_KEY : option string    (* process.env.COINGECKO_API_KEY *)
}.

Definition default_config : Config :=
  {| CACHE_TTL_SECONDS := Num.of_Z 900;
     COINGECKO_BASE_URL := None;
     COINGECKO_API_KEY := None |}.

(** An environment variable is truthy when it is set to a non-empty string. *)
Definition truthy (v : option string) : bool :=
  match v with
  | Some s => negb (String.eqb s EmptyString)
  | None => false
  end.

Definition or_default (v : option string) (d : string) : string :=
  match v with
  | Some s => if String.eqb s EmptyString then d else s
  | None => d
  end.

(** Time values are integral milliseconds of magnitude at most 8.64e15, below
    2^53: the arithmetic the route does on them is exact in binary64 and is
    written in [Z] ([Math.floor(t / 1000)] is [t / 1000], the difference of two
    readings of the clock is their difference in [Z]).  The two operations of
    [Date] that depend on the calendar and on the local time zone are taken
    from the runtime. *)
Record DateOps : Type := {
  (* d.setFullYear(d.getFullYear() - 2); d.getTime() *)
  twoYearsBefore : Z -> Z;
  (* new Date(t).toISOString() *)
  toISOString : Z -> string
}.

Record PricePayload : Type := {
  currentPriceUsd : number;
  historicalPriceUsd : number;
  historicalTargetDate : string
}.

(** ** fetchFromCoinGecko *)

Definition windowDays : Z := 14.

(** [process.env.COINGECKO_BASE_URL || 'https://api.coingecko.com/api/v3'] *)
Definition baseUrl_of (cfg : Config) : string :=
  or_default (COINGECKO_BASE_URL cfg) "https://api.coingecko.com/api/v3".

(** [headers]: the key, under [x-cg-demo-api-key], when one is set. *)
Definition headers_of (cfg : Config) : option string :=
  if truthy (COINGECKO_API_KEY cfg) then COINGECKO_API_KEY cfg else None.

(** [`${res.status} ${res.statusText}`] *)
Definition status_line (r : Response) : string :=
  NilZero.string_of_int (Z.to_int (status r)) ++ " " ++ statusText r.

(** Lines 98-119: the CoinGecko range query, made when an API key is set. *)
Definition coingeckoHistorical (baseUrl : string) (headers : option string)
    (twoYearsAgo targetSec : Z) : Fetching (option number) :=
  let fromSec := targetSec in
  let toSec := targetSec + windowDays * 86400 in
  histRes <- fetch (MarketChartRange baseUrl headers fromSec toSec) ;;
  if ok histRes then
    histJson <- await (json histRes) ;;
    match get_prop histJson "prices" with
    | JSArray prices =>
        if (0 <? length prices)%nat
        then ret (pickClosestPrice prices (Num.of_Z twoYearsAgo))
        else ret None
    | _ => ret None
    end
  else if negb (status histRes =? 401) then
    throw (Error ("CoinGecko historical price error: " ++ status_line histRes))
  else ret None.

Definition undetermined : string :=
  "Unable to determine historical price from Coinbase candles payload".

(** Lines 121-148: the Coinbase daily candles. *)
Definition coinbaseHistorical (twoYearsAgo targetSec : Z) : Fetching number :=
  let start := twoYearsAgo in
  let end_ := twoYearsAgo + windowDays * 86400 * 1000 in
  cbRes <- fetch (CoinbaseCandles 86400 start end_) ;;
  if negb (ok cbRes) then
    throw (Error ("Coinbase candles error: " ++ status_line cbRes))
  else
    candles <- await (json cbRes) ;;
    match candles with
    | JSArray cs =>
        if (length cs =? 0)%nat then
          throw (Error "No candles returned from Coinbase for historical price")
        else
          match pickClosestCandleClose cs (Num.of_Z targetSec) with
          | Some close =>
              if Num.leb close Num.zero then throw (Error undetermined)
              else ret close
          | None => throw (Error undetermined)
          end
    | _ =>
        throw (Error "No candles returned from Coinbase for historical price")
    end.

(** Lines 96-148: the historical price, from CoinGecko when a key is set and
    its answer gives a positive number, from Coinbase otherwise. *)
Definition historicalStage (cfg : Config) (twoYearsAgo targetSec : Z)
    : Fetching number :=
  fromCoinGecko <-
    (if truthy (COINGECKO_API_KEY cfg)
     then coingeckoHistorical (baseUrl_of cfg) (headers_of cfg)
            twoYearsAgo targetSec
     else ret None) ;;
  match fromCoinGecko with
  | Some h =>
      if Num.leb h Num.zero
      then coinbaseHistorical twoYearsAgo targetSec
      else ret h
  | None => coinbaseHistorical twoYearsAgo targetSec
  end.

(** [now] is the reading of [new Date()] on line 87. *)
Definition fetchFromCoinGecko (cfg : Config) (D : DateOps) (now : Z)
    : Fetching PricePayload :=
  currentRes <- fetch (SimplePrice (baseUrl_of cfg) (headers_of cfg)) ;;
  if negb (ok currentRes) then
    throw (Error ("CoinGecko current price error: " ++ status_line currentRes))
  else
    currentJson <- await (json currentRes) ;;
    match get_prop (get_prop currentJson "bitcoin") "usd" with
    | JSNumber currentPrice =>
        if Num.leb currentPrice Num.zero then
          throw (Error "Invalid current price payload from CoinGecko")
        else
          let twoYearsAgo := twoYearsBefore D now in
          let targetSec := twoYearsAgo / 1000 in
          historicalPrice <- historicalStage cfg twoYearsAgo targetSec ;;
          ret {| currentPriceUsd := Num.Math_round currentPrice;
                 historicalPriceUsd := Num.Math_round historicalPrice;
                 historicalTargetDate := toISOString D twoYearsAgo |}
    | _ => throw (Error "Invalid current price payload from CoinGecko")
    end.

(** One run of the pipeline against an upstream: the requests it issued, in
    order, and how it ended. *)
Definition run_pipeline (cfg : Config) (D : DateOps) (now : Z) (up : Upstream)
    : list Request * Completion PricePayload :=
  fetchFromCoinGecko cfg D now up [].

(** A positive number: the values that pass the guards
    [typeof x !== 'number' || x <= 0] of the pipeline, NaN apart. *)
Definition is_positive (x : number) : Prop := Num.ltb Num.zero x = true.

(** The guard of line 121 lets [historicalPrice] stand. *)
Definition positive_number (h : option number) : bool :=
  match h with
  | Some x => negb (Num.leb x Num.zero)
  | None => false
  end.

(** The primary service answers with a success status and a body whose
    [bitcoin.usd] is the number [cp]. *)
Definition primary_price (cfg : Config) (up : Upstream) (cp : number) : Prop :=
  exists currentRes currentJson,
    up (SimplePrice (baseUrl_of cfg) (headers_of cfg)) = Return currentRes
    /\ ok currentRes = true
    /\ json currentRes = Return currentJson
    /\ get_prop (get_prop currentJson "bitcoin") "usd" = JSNumber cp.

(** The two requests for the historical price, for the target instant
    [twoYearsAgo] (milliseconds). *)
Definition rangeRequest (cfg : Config) (twoYearsAgo : Z) : Request :=
  MarketChartRange (baseUrl_of cfg) (headers_of cfg)
    (twoYearsAgo / 1000) (twoYearsAgo / 1000 + windowDays * 86400).

Definition candleRequest (twoYearsAgo : Z) : Request :=
  CoinbaseCandles 86400 twoYearsAgo (twoYearsAgo + windowDays * 86400 * 1000).

(** [hp] is the price that one of the two historical sources gave: the value
    that [pickClosestPrice] selects in the [prices] of the range response, or
    the close that [pickClosestCandleClose] selects in the candles. *)
Definition fetched_historical (cfg : Config) (up : Upstream) (twoYearsAgo : Z)
    (hp : number) : Prop :=
  (exists histRes histJson prices,
      up (rangeRequest cfg twoYearsAgo) = Return histRes
      /\ json histRes = Return histJson
      /\ get_prop histJson "prices" = JSArray prices
      /\ pickClosestPrice prices (Num.of_Z twoYearsAgo) = Some hp)
  \/ (exists cbRes candles,
      up (candleRequest twoYearsAgo) = Return cbRes
      /\ json cbRes = Return (JSArray candles)
      /\ pickClosestCandleClose candles (Num.of_Z (twoYearsAgo / 1000))
         = Some hp).

(** The payload built on lines 150-154. *)
Definition payload_of (D : DateOps) (twoYearsAgo : Z) (currentPrice
    historicalPrice : number) : PricePayload :=
  {| currentPriceUsd := Num.Math_round currentPrice;
     historicalPriceUsd := Num.Math_round historicalPrice;
     historicalTargetDate := toISOString D twoYearsAgo |}.

(** ** HTTP responses of the route *)

(** [Cache-Control: public, s-maxage=.., stale-while-revalidate=..] *)
Record CacheControl : Type := {
  s_maxage : number;
  stale_while_revalidate : number
}.

(** The JSON body: a payload, or [{ error: message }]. *)
Inductive Body : Type :=
| PayloadBody (payload : PricePayload)
| ErrorBody (error : string).

Record HttpResponse : Type := {
  http_status : Z;
  http_body : Body;
  cache_control : CacheControl;
  x_cache : string
}.

Definition okJson (cfg : Config) (payload : PricePayload) (cacheStatus : string)
    : HttpResponse :=
  {| http_status := 200;
     http_body := PayloadBody payload;
     cache_control := {| s_maxage := CACHE_TTL_SECONDS cfg;
                         stale_while_revalidate := Num.of_Z 86400 |};
     x_cache := cacheStatus |}.

(** [errJson(message, status = 502, cacheStatus = 'MISS')]; the route passes
    the message and 502 and leaves the cache status to its default. *)
Definition errJson (message : string) (status : Z) (cacheStatus : string)
    : HttpResponse :=
  {| http_status := status;
     http_body := ErrorBody message;
     cache_control := {| s_maxage := Num.of_Z 30;
                         stale_while_revalidate := Num.of_Z 300 |};
     x_cache := cacheStatus |}.

(** [String(e)] for an error object. *)
Definition String_of_error (e : JSError) : string :=
  if String.eqb (name e) EmptyString then message e
  else if String.eqb (message e) EmptyString then name e
  else name e ++ ": " ++ message e.

(** [e?.message || `Server error fetching CoinGecko prices: ${String(e)}`] *)
Definition error_message (e : JSError) : string :=
  if String.eqb (message e) EmptyString
  then "Server error fetching CoinGecko prices: " ++ String_of_error e
  else message e.

Definition try_catch {A : Type} (body : Completion A)
    (handler : JSError -> Completion A) : Completion A :=
  match body with
  | Return a => Return a
  | Throw e => handler e
  end.

(** Lines 184-189: what a suspended [GET] does when the promise it awaits
    settles. *)
Definition GET_resume (cfg : Config) (outcome : Completion PricePayload)
    : Completion HttpResponse :=
  try_catch
    match outcome with
    | Return payload => Return (okJson cfg payload "MISS")
    | Throw e => Throw e
    end
    (fun e => Return (errJson (error_message e) 502 "MISS")).

(** ** The module state and the event loop

    [cachedValue] and [inFlight] are the two module variables.  Every promise
    that [GET] creates (one per call of [fetchFromCoinGecko]) is kept in
    [promises]; [inFlight] refers to one of them by its index.  A pending
    promise holds the callers suspended on it, in the order they arrived.

    JavaScript runs one job at a time, each to its next [await].  The module
    variables are read and written in two kinds of job only: the start of
    [GET] up to [await inFlight] (in which [fetchFromCoinGecko] is called and
    runs to its first [fetch]), and the settlement of a pipeline run, in which
    the body after [await fetchFromCoinGecko()], the [finally] callback and
    the resumption of the waiters follow one another as microtasks with no
    request in between.  These are the two events of the model; the network
    waits of a run lie between them and touch no shared state. *)

Definition Caller : Type := nat.

Record CacheEntry : Type := { payload : PricePayload; cachedAtMs : Z }.

Inductive Promise : Type :=
| Pending (waiters : list Caller)
| Settled (outcome : Completion PricePayload).

Record Server : Type := {
  cachedValue : option CacheEntry;
  inFlight : option nat;
  promises : list Promise
}.

Definition initial : Server :=
  {| cachedValue := None; inFlight := None; promises := [] |}.

Definition Out : Type := Caller * Completion HttpResponse.

Fixpoint set_nth {A : Type} (i : nat) (x : A) (l : list A) : list A :=
  match l, i with
  | [], _ => []
  | _ :: r, O => x :: r
  | a :: r, S k => a :: set_nth k x r
  end.

(** Lines 164-169: the payload of a fresh cache entry, if there is one. *)
Definition fresh (cfg : Config) (s : Server) (now : Z) : option PricePayload :=
  match cachedValue s with
  | Some entry =>
      if Num.ltb (Num.of_Z (now - cachedAtMs entry))
                 (Num.mul (CACHE_TTL_SECONDS cfg) (Num.of_Z 1000))
      then Some (payload entry)
      else None
  | None => None
  end.

(** [await inFlight]: the caller is suspended on a pending promise, and is
    resumed at once with the outcome of a settled one ([p] is always an index
    of the store). *)
Definition await_promise (cfg : Config) (s : Server) (p : nat) (c : Caller)
    : Server * list Out :=
  match nth_error (promises s) p with
  | Some (Pending ws) =>
      ({| cachedValue := cachedValue s;
          inFlight := inFlight s;
          promises := set_nth p (Pending (ws ++ [c])) (promises s) |}, [])
  | Some (Settled outcome) => (s, [(c, GET_resume cfg outcome)])
  | None => (s, [])
  end.

(** One invocation of [GET] by caller [c], up to its first suspension;
    [now] is [Date.now()] on line 161. *)
Definition GET_call (cfg : Config) (s : Server) (c : Caller) (now : Z)
    : Server * list Out :=
  match fresh cfg s now with
  | Some cached => (s, [(c, Return (okJson cfg cached "HIT"))])
  | None =>
      match inFlight s with
      | None =>
          let p := length (promises s) in
          await_promise cfg
            {| cachedValue := cachedValue s;
               inFlight := Some p;
               promises := promises s ++ [Pending []] |} p c
      | Some p => await_promise cfg s p c
      end
  end.

(** Lines 175-181: promise [p] settles with the outcome of its pipeline run;
    [now] is [Date.now()] on line 177.  The body stores the entry on success,
    the [finally] callback clears [inFlight], then the waiters are resumed. *)
Definition settle (cfg : Config) (s : Server) (p : nat)
    (outcome : Completion PricePayload) (now : Z)
    : option (Server * list Out) :=
  match nth_error (promises s) p with
  | Some (Pending ws) =>
      Some ({| cachedValue :=
                 match outcome with
                 | Return fetched =>
                     Some {| payload := fetched; cachedAtMs := now |}
                 | Throw _ => cachedValue s
                 end;
               inFlight := None;
               promises := set_nth p (Settled outcome) (promises s) |},
            map (fun c => (c, GET_resume cfg outcome)) ws)
  | _ => None
  end.

Inductive Event : Type :=
| Call (c : Caller) (now : Z)
| Settle (p : nat) (outcome : Completion PricePayload) (now : Z).

Definition step (cfg : Config) (s : Server) (ev : Event)
    : option (Server * list Out) :=
  match ev with
  | Call c now => Some (GET_call cfg s c now)
  | Settle p outcome now => settle cfg s p outcome now
  end.

Fixpoint run (cfg : Config) (s : Server) (evs : list Event)
    : option (Server * list Out) :=
  match evs with
  | [] => Some (s, [])
  | ev :: rest =>
      match step cfg s ev with
      | Some (s1, out1) =>
          match run cfg s1 rest with
          | Some (s2, out2) => Some (s2, out1 ++ out2)
          | None => None
          end
      | None => None
      end
  end.

(** The settlement of promise [p] by a pipeline run against [up]. *)
Definition Refresh (cfg : Config) (D : DateOps) (p : nat) (pipelineNow : Z)
    (up : Upstream) (now : Z) : Event :=
  Settle p (snd (run_pipeline cfg D pipelineNow up)) now.

(** The arrival of the callers [calls], each with its reading of the clock,
    with no settlement in between. *)
Definition calls_of (calls : list (Caller * Z)) : list Event :=
  map (fun cn => Call (fst cn) (snd cn)) calls.

(** The number of times [fetchFromCoinGecko] has been called. *)
Definition executions (s : Server) : nat := length (promises s).

Definition reachable (cfg : Config) (s : Server) : Prop :=
  exists evs out, run cfg initial evs = Some (s, out).

(** The only pending promise is the one [inFlight] refers to. *)
Definition coherent (s : Server) : Prop :=
  (forall p, inFlight s = Some p ->
             exists ws, nth_error (promises s) p = Some (Pending ws))
  /\ (forall p ws, nth_error (promises s) p = Some (Pending ws) ->
                   inFlight s = Some p).

(** ** The Date operations when the local time zone is UTC

    Used to run the model on concrete instants; the properties below hold
    for any [DateOps]. *)

Module UTC.

Definition msPerDay : Z := 86400000.

(** Day number (days since 1970-01-01) of a civil date, in the proleptic
    Gregorian calendar; [MakeDay] lets the day of the month overflow. *)
Definition days_from_civil (y m d : Z) : Z :=
  let y' := if m <=? 2 then y - 1 else y in
  let era := y' / 400 in
  let yoe := y' - era * 400 in
  let doy := (153 * (if 2 <? m then m - 3 else m + 9) + 2) / 5 + d - 1 in
  let doe := yoe * 365 + yoe / 4 - yoe / 100 + doy in
  era * 146097 + doe - 719468.

Definition civil_from_days (z : Z) : Z * Z * Z :=
  let z := z + 719468 in
  let era := z / 146097 in
  let doe := z - era * 146097 in
  let yoe := (doe - doe / 1460 + doe / 36524 - doe / 146096) / 365 in
  let doy := doe - (365 * yoe + yoe / 4 - yoe / 100) in
  let mp := (5 * doy + 2) / 153 in
  let d := doy - (153 * mp + 2) / 5 + 1 in
  let m := if mp <? 10 then mp + 3 else mp - 9 in
  ((if m <=? 2 then yoe + era * 400 + 1 else yoe + era * 400), m, d).

(** [d.setFullYear(d.getFullYear() - 2)]: the same month, day of month and
    time of day two calendar years earlier (29 February becomes 1 March). *)
Definition setFullYearBack2 (t : Z) : Z :=
  let '(y, m, d) := civil_from_days (t / msPerDay) in
  (days_from_civil (y - 2) m 1 + d - 1) * msPerDay + t mod msPerDay.

Fixpoint pad (width : nat) (s : string) : string :=
  match width with
  | O => s
  | S w => if (String.length s <? width)%nat
           then String "0"%char (pad w s) else s
  end.

Definition digits (width : nat) (z : Z) : string :=
  pad width (NilZero.string_of_int (Z.to_int z)).

Definition year_string (y : Z) : string :=
  if (0 <=? y) && (y <=? 9999) then digits 4 y
  else if y <? 0 then String "-"%char (digits 6 (- y))
  else String "+"%char (digits 6 y).

Definition isoString (t : Z) : string :=
  let '(y, m, d) := civil_from_days (t / msPerDay) in
  let ms := t mod msPerDay in
  year_string y ++ "-" ++ digits 2 m ++ "-" ++ digits 2 d ++ "T"
    ++ digits 2 (ms / 3600000) ++ ":" ++ digits 2 (ms / 60000 mod 60) ++ ":"
    ++ digits 2 (ms / 1000 mod 60) ++ "." ++ digits 3 (ms mod 1000) ++ "Z".

Definition date : DateOps :=
  {| twoYearsBefore := setFullYearBack2;
     toISOString := isoString |}.

End UTC.

(** ** Sample inputs *)

(** A price entry [[t + off, v]] and a candle [[t + off, 0, 0, 0, v, 0]]. *)
Definition price_entry (t off v : Z) : JSValue :=
  JSArray [JSNumber (Num.of_Z (t + off)); JSNumber (Num.of_Z v)].

Definition candle_entry (t off v : Z) : JSValue :=
  JSArray [JSNumber (Num.of_Z (t + off)); JSNumber Num.zero; JSNumber Num.zero;
           JSNumber Num.zero; JSNumber (Num.of_Z v); JSNumber Num.zero].

(** The entry that the JSON text [[1e999, 7]] parses to. *)
Definition overflowing_price : JSValue :=
  JSArray [JSNumber Num.Infinity; JSNumber (Num.of_Z 7)].

(** The candle that [[1e999, 0, 0, 0, 5, 0]] parses to. *)
Definition overflowing_candle : JSValue :=
  JSArray [JSNumber Num.Infinity; JSNumber Num.zero; JSNumber Num.zero;
           JSNumber Num.zero; JSNumber (Num.of_Z 5); JSNumber Num.zero].

Definition sample_payload : PricePayload :=
  {| currentPriceUsd := Num.of_Z 65001;
     historicalPriceUsd := Num.of_Z 30000;
     historicalTargetDate := "2021-11-14T22:13:20.000Z" |}.

(** A server whose one refresh has succeeded and stored its payload at [t]. *)
Definition cached_server (t : Z) : Server :=
  {| cachedValue := Some {| payload := sample_payload; cachedAtMs := t |};
     inFlight := None;
     promises := [Settled (Return sample_payload)] |}.

(** A server with an empty cache and a refresh in flight, awaited by the
    callers 1 and 2. *)
Definition refreshing_server : Server :=
  {| cachedValue := None;
     inFlight := Some 0%nat;
     promises := [Pending [1%nat; 2%nat]] |}.

(** Upstream services for one run: the primary answers
    [{"bitcoin":{"usd":<usd>}}], the range query answers with status
    [rangeStatus], and Coinbase answers with two daily candles, the nearer
    one closing at [close]. *)
Definition ok_response (body : JSValue) : Completion Response :=
  Return {| status := 200; statusText := "OK"; json := Return body |}.

Definition sample_upstream (usd : number) (rangeStatus : Z) (close : number)
    : Upstream :=
  fun req =>
    match req with
    | SimplePrice _ _ =>
        ok_response (JSObject [("bitcoin"%string,
                                JSObject [("usd"%string, JSNumber usd)])])
    | MarketChartRange _ _ _ _ =>
        Return {| status := rangeStatus; statusText := "Error";
                  json := Return JSNull |}
    | CoinbaseCandles _ startMs _ =>
        ok_response
          (JSArray
             [JSArray [JSNumber (Num.of_Z (startMs / 1000 + 86400));
                       JSNumber Num.zero; JSNumber Num.zero; JSNumber Num.zero;
                       JSNumber (Num.of_Z 31000); JSNumber Num.zero];
              JSArray [JSNumber (Num.of_Z (startMs / 1000));
                       JSNumber Num.zero; JSNumber Num.zero; JSNumber Num.zero;
                       JSNumber close; JSNumber Num.zero]])
    end.

Definition keyed_config : Config :=
  {| CACHE_TTL_SECONDS := Num.of_Z 900;
     COINGECKO_BASE_URL := None;
     COINGECKO_API_KEY := Some "demo-key"%string |}.

(** ** Callers and waiters of a run *)

(** The callers suspended on the promises of the store, promise by promise. *)
Definition waiters_of (p : Promise) : list Caller :=
  match p with
  | Pending ws => ws
  | Settled _ => []
  end.

Definition waiting (s : Server) : list Caller :=
  flat_map waiters_of (promises s).

(** The callers that invoke [GET] in a sequence of events, in order. *)
Definition callers (evs : list Event) : list Caller :=
  flat_map (fun ev => match ev with Call c _ => [c] | Settle _ _ _ => [] end)
    evs.

(** A response that [GET] sends for the outcome of a refresh kept in the
    store: the 200 of a payload that a pipeline run returned, or the 502 of
    the error that a run ended with. *)
Definition served_from (cfg : Config) (s : Server) (r : Completion HttpResponse)
    : Prop :=
  (exists fetched cacheStatus,
      In (Settled (Return fetched)) (promises s)
      /\ r = Return (okJson cfg fetched cacheStatus))
  \/ (exists e,
      In (Settled (Throw e)) (promises s)
      /\ r = Return (errJson (error_message e) 502 "MISS")).

(** The cache holds nothing but the payload of a settled, successful run. *)
Definition cache_from_store (s : Server) : Prop :=
  forall entry, cachedValue s = Some entry ->
                In (Settled (Return (payload entry))) (promises s).


(** The entry that the last successful settlement of [evs] stored, [start]
    when there was none. *)
Definition last_stored (evs : list Event) (start : option CacheEntry)
    : option CacheEntry :=
  fold_left
    (fun acc ev =>
       match ev with
       | Settle _ (Return fetched) now =>
           Some {| payload := fetched; cachedAtMs := now |}
       | _ => acc
       end)
    evs start.

(** A day of the service: two callers share a refresh that fails, a third
    starts the next one, which succeeds, and a fourth is served from the
    cache. *)
Definition sample_events (t : Z) : list Event :=
  [Call 1%nat t; Call 2%nat (t + 40);
   Settle 0%nat (Throw (Error "fetch failed")) (t + 200);
   Call 3%nat (t + 300);
   Settle 1%nat (Return sample_payload) (t + 500);
   Call 4%nat (t + 600)].

(** Upstream services for a run with an API key: as [sample_upstream], but
    the range query is answered with status 200 and the body [body]. *)
Definition keyed_upstream (usd : number) (body : Completion JSValue)
    (close : number) : Upstream :=
  fun req =>
    match req with
    | MarketChartRange _ _ _ _ =>
        Return {| status := 200; statusText := "OK"; json := body |}
    | _ => sample_upstream usd 200 close req
    end.

(** An upstream whose Coinbase service is down. *)
Definition coinbase_down (usd : number) (st : Z) : Upstream :=
  fun req =>
    match req with
    | CoinbaseCandles _ _ _ =>
        Return {| status := st; statusText := "Service Unavailable";
                  json := Return JSNull |}
    | _ => sample_upstream usd 401 Num.zero req
    end.

(** ** Where a failure of the pipeline comes from *)

(** The error [e] was raised by the runtime while the run was talking to
    [req]: [fetch] rejected with it, or the parsing of the body of a
    successful response did. *)
Definition raised_by (up : Upstream) (req : Request) (e : JSError) : Prop :=
  up req = Throw e
  \/ exists r, up req = Return r /\ ok r = true /\ json r = Throw e.

(** The messages of the errors that [fetchFromCoinGecko] itself throws about
    the response [r]. *)
Definition pipeline_messages (r : Response) : list string :=
  ["CoinGecko current price error: " ++ status_line r;
   "Invalid current price payload from CoinGecko";
   "CoinGecko historical price error: " ++ status_line r;
   "Coinbase candles error: " ++ status_line r;
   "No candles returned from Coinbase for historical price";
   undetermined]%string.

(** Upstream services for a run without an API key in which Coinbase answers
    with the candles [candles]. *)
Definition candles_upstream (usd : number) (candles : list JSValue)
    : Upstream :=
  fun req =>
    match req with
    | CoinbaseCandles _ _ _ => ok_response (JSArray candles)
    | _ => sample_upstream usd 401 Num.zero req
    end.

(** Three daily candles around the target second [ts]: one a day before it
    closing at 28000, one 3600 seconds after it closing at 29000, and one a
    day after it closing at 31000.  The nearest is neither the first nor the
    last. *)
Definition daily_candles (ts : Z) : list JSValue :=
  [candle_entry ts (-86400) 28000; candle_entry ts 3600 29000;
   candle_entry ts 86400 31000].

(** Three data points of a range response around the target instant [t]:
    the nearest, 10 ms before it, is neither the first nor the last. *)
Definition price_points (t : Z) : list JSValue :=
  [price_entry t (-5000) 28000; price_entry t (-10) 29000;
   price_entry t 9999 31000].

(** * The calculator page, [MiningCalculator]

    The part of the client component that talks to the route: the state
    that [fetchPrices] writes, the input field of the current price, and
    [historicalMultiplier]. *)

(** [Number.isFinite(x)], and the truthiness of a number and of a value. *)
Definition Number_isFinite (x : number) : bool :=
  match x with
  | S754_zero _ | S754_finite _ _ _ => true
  | _ => false
  end.

Definition number_truthy (x : number) : bool :=
  match x with
  | S754_zero _ | S754_nan => false
  | _ => true
  end.

Definition js_truthy (v : JSValue) : bool :=
  match v with
  | JSUndefined | JSNull => false
  | JSBool b => b
  | JSNumber x => number_truthy x
  | JSString s => negb (String.eqb s EmptyString)
  | JSArray _ | JSObject _ => true
  end.

(** ** The response as the browser reads it

    [NextResponse.json(body, { status })] sends [JSON.stringify(body)], and
    [res.json()] parses it back.  A finite number survives the round trip
    (-0 as 0); an infinity or NaN is written as [null]. *)
Definition wire_number (x : number) : JSValue :=
  match x with
  | S754_zero _ => JSNumber Num.zero
  | S754_finite _ _ _ => JSNumber x
  | _ => JSNull
  end.

Definition wire_body (b : Body) : JSValue :=
  match b with
  | PayloadBody p =>
      JSObject
        [("currentPriceUsd"%string, wire_number (currentPriceUsd p));
         ("historicalPriceUsd"%string, wire_number (historicalPriceUsd p));
         ("historicalTargetDate"%string, JSString (historicalTargetDate p))]
  | ErrorBody msg => JSObject [("error"%string, JSString msg)]
  end.

(** The response of the route as [fetch('/api/btc-prices')] gives it to the
    page; the reason phrase [text] is the server's. *)
Definition wire (text : string) (r : HttpResponse) : Response :=
  {| status := http_status r;
     statusText := text;
     json := Return (wire_body (http_body r)) |}.

Module Client.

(** The five pieces of state that the price fetch touches; [null] is
    [None], and [lastUpdated] holds the time value of its [Date]. *)
Record State : Type := {
  currentBtcPrice : option number;
  historicalBtcPrice : option number;
  lastUpdated : option Z;
  isLoading : bool;
  priceError : option string
}.

Definition initial : State :=
  {| currentBtcPrice := None;
     historicalBtcPrice := None;
     lastUpdated := None;
     isLoading := true;
     priceError := None |}.

(** Lines 31-36.  [x && x > 0] on a piece of state that is [null] or a
    number. *)
Definition set_and_positive (x : option number) : bool :=
  match x with
  | Some v => number_truthy v && Num.ltb Num.zero v
  | None => false
  end.

Definition historicalMultiplier (s : State) : option number :=
  if set_and_positive (historicalBtcPrice s)
     && set_and_positive (currentBtcPrice s)
  then match currentBtcPrice s, historicalBtcPrice s with
       | Some c, Some h => Some (Num.div c h)
       | _, _ => None
       end
  else None.

(** Lines 415-420: the input field of the current price; [raw] is [None]
    when the field was emptied, and [Number(raw)] otherwise. *)
Definition onChange (s : State) (raw : option number) : State :=
  {| currentBtcPrice :=
       match raw with
       | Some n => if Number_isFinite n then Some n else None
       | None => None
       end;
     historicalBtcPrice := historicalBtcPrice s;
     lastUpdated := lastUpdated s;
     isLoading := isLoading s;
     priceError := priceError s |}.

Section FetchPrices.

(** [String(v)] for a value that is not a string, as the runtime defines
    it. *)
Variable ToString : JSValue -> string.

(** [new Error(v)] *)
Definition Error_of (v : JSValue) : JSError :=
  Error match v with
        | JSString s => s
        | _ => ToString v
        end.

(** Lines 45-57: the two prices that the settled [fetch] gives, or the
    error that is thrown on the way. *)
Definition received (res : Completion Response)
    : Completion (number * number) :=
  match res with
  | Throw e => Throw e
  | Return res =>
      match json res with
      | Throw e => Throw e
      | Return data =>
          if negb (ok res) then
            if js_truthy (get_prop data "error")
            then Throw (Error_of (get_prop data "error"))
            else Throw (Error ("Price API error: " ++ status_line res))
          else
            match get_prop data "currentPriceUsd" with
            | JSNumber c =>
                if Num.leb c Num.zero
                then Throw (Error "Invalid current price from price API")
                else
                  match get_prop data "historicalPriceUsd" with
                  | JSNumber h =>
                      if Num.leb h Num.zero
                      then Throw
                             (Error "Invalid historical price from price API")
                      else Return (c, h)
                  | _ =>
                      Throw (Error "Invalid historical price from price API")
                  end
            | _ => Throw (Error "Invalid current price from price API")
            end
      end
  end.

(** Lines 41-42: [fetchPrices] up to its first [await]. *)
Definition fetchPrices_start (s : State) : State :=
  {| currentBtcPrice := currentBtcPrice s;
     historicalBtcPrice := historicalBtcPrice s;
     lastUpdated := lastUpdated s;
     isLoading := true;
     priceError := None |}.

(** Lines 44-70: the rest of [fetchPrices], once [fetch] has settled to
    [res]; [now] is the reading of [new Date()] on line 62. *)
Definition fetchPrices_done (s : State) (res : Completion Response) (now : Z)
    : State :=
  match received res with
  | Return (c, h) =>
      {| currentBtcPrice := Some c;
         historicalBtcPrice := Some h;
         lastUpdated := Some now;
         isLoading := false;
         priceError := None |}
  | Throw e =>
      {| currentBtcPrice := currentBtcPrice s;
         historicalBtcPrice := historicalBtcPrice s;
         lastUpdated := lastUpdated s;
         isLoading := false;
         priceError := Some ("API Error: " ++ message e)%string |}
  end.

(** What happens to the page: a fetch starts (on mount and every twelve
    hours), a fetch settles, the user edits the current price. *)
Inductive Event : Type :=
| FetchStart
| FetchDone (res : Completion Response) (now : Z)
| Change (raw : option number).

Definition step (s : State) (ev : Event) : State :=
  match ev with
  | FetchStart => fetchPrices_start s
  | FetchDone res now => fetchPrices_done s res now
  | Change raw => onChange s raw
  end.

Definition run (s : State) (evs : list Event) : State :=
  fold_left step evs s.

End FetchPrices.

(** The body of a response that [fetch] gave is a parsed JSON text. *)
Definition parsed (ev : Event) : Prop :=
  match ev with
  | FetchDone (Return res) _ =>
      forall data, json res = Return data -> is_json data = true
  | _ => True
  end.

(** The two ways [fetchPrices] leaves the page: with the prices of the
    response, or with an error message and what it had. *)
Definition accepted (c h : number) (now : Z) : State :=
  {| currentBtcPrice := Some c;
     historicalBtcPrice := Some h;
     lastUpdated := Some now;
     isLoading := false;
     priceError := None |}.

Definition rejected (s : State) (msg : string) : State :=
  {| currentBtcPrice := currentBtcPrice s;
     historicalBtcPrice := historicalBtcPrice s;
     lastUpdated := lastUpdated s;
     isLoading := false;
     priceError := Some ("API Error: " ++ msg)%string |}.

(** What every step of the page keeps: the historical price is a positive
    number when set, and is set together with [lastUpdated]; the current
    price is finite or positive. *)
Definition page_inv (s : State) : Prop :=
  (forall h, historicalBtcPrice s = Some h -> is_positive h)
  /\ (forall c, currentBtcPrice s = Some c ->
                Number_isFinite c = true \/ is_positive c)
  /\ (lastUpdated s = None <-> historicalBtcPrice s = None).

(** The finite number [x] rounds to an integer that is at least 1: it is
    one half or more. *)
Definition half_or_more (x : number) : Prop :=
  exists n, 1 <= n /\ Num.nearest_integer x n.

End Client.

(** [String(v)] when no conversion of a non-string value is looked at. *)
Definition no_ToString : JSValue -> string := fun _ => EmptyString.

(** A page whose last fetch succeeded. *)
Definition loaded_page : Client.State :=
  {| Client.currentBtcPrice := Some (Num.of_Z 65001);
     Client.historicalBtcPrice := Some (Num.of_Z 29000);
     Client.lastUpdated := Some 1700000000500;
     Client.isLoading := false;
     Client.priceError := None |}.

(** The upstream of a run in which both prices are below one half: the
    primary answers 0.3 and the nearest candle closes at 0.4. *)
Definition tiny_upstream : Upstream :=
  sample_upstream (Num.dec 3 10) 401 (Num.dec 4 10).

(** A morning of the page: the first fetch fails, the user types a price,
    the next fetch succeeds. *)
Definition page_events : list Client.Event :=
  [Client.FetchStart;
   Client.FetchDone
     (Return (wire "Bad Gateway" (errJson "fetch failed" 502 "MISS")))
     1700000000200;
   Client.Change (Some (Num.of_Z 64000));
   Client.FetchStart;
   Client.FetchDone
     (Return (wire "OK" (okJson default_config sample_payload "MISS")))
     1700000000500].
(** * Properties *)

(** ** The order of numbers

    [<] and [<=] on binary64 values: a strict total order on the numbers
    other than NaN (the two zeros being equal), NaN comparing false with
    everything. *)

Module NumOrder.
Import Num.

Ltac cases_compare :=
  repeat match goal with
  | H : context [Z.compare ?x ?y] |- _ => destruct (Z.compare_spec x y)
  | |- context [Z.compare ?x ?y] => destruct (Z.compare_spec x y)
  | H : context [Pos.compare_cont Eq ?x ?y] |- _ =>
      change (Pos.compare_cont Eq x y) with (Pos.compare x y) in H;
      destruct (Pos.compare_spec x y)
  | |- context [Pos.compare_cont Eq ?x ?y] =>
      change (Pos.compare_cont Eq x y) with (Pos.compare x y);
      destruct (Pos.compare_spec x y)
  end.

Ltac order_cases :=
  unfold ltb, leb, SFltb, SFleb, Infinity in *;
  repeat match goal with
  | x : number |- _ => destruct x as [[]|[]| |[] ? ?]
  end;
  simpl in *; try discriminate; try reflexivity;
  cases_compare; simpl in *;
  try discriminate; try reflexivity; try lia.

Lemma ltb_trans (a b c : number) :
  ltb a b = true -> ltb b c = true -> ltb a c = true.
Proof. intros; order_cases. Qed.

Lemma ltb_leb_trans (a b c : number) :
  ltb a b = true -> leb b c = true -> ltb a c = true.
Proof. intros; order_cases. Qed.

Lemma leb_ltb_trans (a b c : number) :
  leb a b = true -> ltb b c = true -> ltb a c = true.
Proof. intros; order_cases. Qed.

Lemma ltb_irrefl (a : number) : ltb a a = false.
Proof. order_cases. Qed.

Lemma ltb_false_leb (a b : number) :
  is_nan a = false -> is_nan b = false ->
  ltb a b = false -> leb b a = true.
Proof. intros; order_cases. Qed.

Lemma leb_ltb_false (a b : number) :
  leb b a = true -> ltb a b = false.
Proof. intros; order_cases. Qed.

Lemma below_Infinity_not_nan (d : number) :
  ltb d Infinity = true -> is_nan d = false.
Proof. intros; order_cases. Qed.

Lemma abs_not_below_Infinity (x : number) :
  ltb (abs x) Infinity = false -> abs x = Infinity \/ abs x = NaN.
Proof.
  destruct x as [[]|[]| |[] ? ?]; simpl; intros; try discriminate; auto.
Qed.
End NumOrder.

Import NumOrder.

(** ** The scans select the first closest candidate *)

Section ClosestFacts.
Variable candidate : JSValue -> option (number * number).
Variable target : number.

Local Abbreviation cand_at := (candidate_at candidate target).
Local Abbreviation closest := (first_closest candidate target).
Local Abbreviation none := (none_selectable candidate target).
Local Abbreviation inv := (scan_inv candidate target).
Local Abbreviation step := (scan_step candidate target).
Local Abbreviation dist := (time_diff target).

Lemma candidate_at_app_l l e i v d :
  cand_at l i v d -> cand_at (l ++ [e]) i v d.
Proof.
  intros (x & ts & Hn & Hc & Hd). exists x, ts. repeat split; auto.
  rewrite nth_error_app1; auto. apply nth_error_Some. congruence.
Qed.

Lemma candidate_at_snoc l e i v d :
  cand_at (l ++ [e]) i v d ->
  cand_at l i v d /\ (i < length l)%nat
  \/ i = length l
     /\ exists ts, candidate e = Some (ts, v) /\ d = dist ts.
Proof.
  intros (x & ts & Hn & Hc & Hd).
  destruct (Nat.lt_ge_cases i (length l)) as [Hlt | Hge].
  - left. split; auto. rewrite nth_error_app1 in Hn by auto.
    exists x, ts; auto.
  - right. rewrite nth_error_app2 in Hn by auto.
    destruct (i - length l)%nat as [|k] eqn:Hk.
    + simpl in Hn. injection Hn as <-. split; [lia|]. exists ts; auto.
    + simpl in Hn. destruct k; discriminate.
Qed.

Lemma candidate_at_lt l i v d : cand_at l i v d -> (i < length l)%nat.
Proof. intros (x & ts & Hn & _). apply nth_error_Some. congruence. Qed.

Lemma candidate_at_last l e ts v :
  candidate e = Some (ts, v) ->
  cand_at (l ++ [e]) (length l) v (dist ts).
Proof.
  intros Hc. exists e, ts. repeat split; auto.
  rewrite nth_error_app2 by lia. now rewrite Nat.sub_diag.
Qed.

Lemma time_diff_cases ts :
  selectable (dist ts)
  \/ dist ts = Num.Infinity \/ dist ts = Num.NaN.
Proof.
  unfold selectable.
  destruct (Num.ltb (dist ts) Num.Infinity) eqn:E; auto.
  right. now apply abs_not_below_Infinity.
Qed.

Lemma scan_inv_nil : inv [] scan_init.
Proof.
  left. split; auto. intros i v d (x & ts & Hn & _). now destruct i.
Qed.

Lemma scan_inv_step l st e :
  inv l st -> inv (l ++ [e]) (step st e).
Proof.
  intros Hinv. unfold scan_step.
  destruct (candidate e) as [[ts v]|] eqn:Hc.
  2:{ (* skipped entry *)
    destruct Hinv as [[-> Hnone] | (i & v & Hst & Hat & Hsel & Hmin)].
    - left. split; auto. intros j v' d' Hj.
      apply candidate_at_snoc in Hj as [[Hj _] | [_ (ts' & Hc' & _)]];
        [eauto | congruence].
    - right. exists i, v. repeat split; auto using candidate_at_app_l.
      all: intros Hlt;
        apply candidate_at_snoc in H as [[Hj _] | [_ (ts' & Hc' & _)]];
        try congruence; now apply (Hmin j v' d' Hj H0). }
  destruct (Num.ltb (dist ts) (snd st)) eqn:Hlt.
  - (* the entry becomes the closest so far *)
    right. exists (length l), v. simpl.
    assert (Hsel' : selectable (dist ts)).
    { destruct Hinv as [[-> _] | (i & v0 & _ & _ & Hsel & _)]; [exact Hlt|].
      eapply ltb_trans; eauto. }
    repeat split; auto using candidate_at_last.
    + intros Hj. apply candidate_at_snoc in H as [[Hat' _] | [-> _]]; [|lia].
      destruct Hinv as [[-> Hnone] | (i & v0 & Hst & Hat & Hsel & Hmin)].
      * apply Hnone in Hat'. unfold selectable in H0. congruence.
      * destruct (Nat.lt_trichotomy j i) as [Hji | [-> | Hij]].
        -- eapply ltb_trans; [exact Hlt|].
           now apply (Hmin j v' d' Hat' H0).
        -- destruct Hat as (x1 & t1 & Hn1 & Hc1 & Hd1),
             Hat' as (x2 & t2 & Hn2 & Hc2 & Hd2).
           rewrite Hn1 in Hn2. injection Hn2 as <-. rewrite Hc1 in Hc2.
           injection Hc2 as <- <-. congruence.
        -- eapply ltb_leb_trans; [exact Hlt|].
           now apply (Hmin j v' d' Hat' H0).
    + intros Hj. apply candidate_at_lt in H. rewrite length_app in H.
      simpl in H. lia.
  - (* the closest so far stays *)
    destruct Hinv as [[-> Hnone] | (i & v0 & Hst & Hat & Hsel & Hmin)].
    + left. split; auto. intros j v' d' Hj.
      apply candidate_at_snoc in Hj as [[Hj _] | [_ (ts' & Hc' & ->)]];
        [eauto|].
      rewrite Hc in Hc'. injection Hc' as <- <-. exact Hlt.
    + right. exists i, v0. repeat split; auto using candidate_at_app_l.
      * intros Hji. apply candidate_at_snoc in H as [[Hj _] | [-> _]].
        -- now apply (Hmin j v' d' Hj H0).
        -- apply candidate_at_lt in Hat. lia.
      * intros Hij.
        apply candidate_at_snoc in H as [[Hj _] | [-> (ts' & Hc' & ->)]].
        -- now apply (Hmin j v' d' Hj H0).
        -- rewrite Hc in Hc'. injection Hc' as <- <-.
           apply ltb_false_leb; auto using below_Infinity_not_nan.
Qed.

Lemma scan_inv_fold l2 : forall l1 st,
  inv l1 st -> inv (l1 ++ l2) (fold_left step l2 st).
Proof.
  induction l2 as [|e l2 IH]; intros l1 st Hinv; simpl.
  - now rewrite app_nil_r.
  - replace (l1 ++ e :: l2) with ((l1 ++ [e]) ++ l2)
      by now rewrite <- app_assoc.
    apply IH. now apply scan_inv_step.
Qed.

Lemma scan_inv_final l : inv l (fold_left step l scan_init).
Proof. apply (scan_inv_fold l [] scan_init scan_inv_nil). Qed.

Lemma first_closest_unique l v1 v2 :
  closest l v1 -> closest l v2 -> v1 = v2.
Proof.
  intros (i1 & d1 & Hat1 & Hs1 & Hm1) (i2 & d2 & Hat2 & Hs2 & Hm2).
  destruct (Nat.lt_trichotomy i1 i2) as [Hlt | [-> | Hlt]].
  - destruct (Hm2 _ _ _ Hat1 Hs1) as [H _].
    destruct (Hm1 _ _ _ Hat2 Hs2) as [_ H'].
    specialize (H Hlt). specialize (H' Hlt).
    apply leb_ltb_false in H'. congruence.
  - destruct Hat1 as (x1 & t1 & Hn1 & Hc1 & _),
      Hat2 as (x2 & t2 & Hn2 & Hc2 & _).
    congruence.
  - destruct (Hm1 _ _ _ Hat2 Hs2) as [H _].
    destruct (Hm2 _ _ _ Hat1 Hs1) as [_ H'].
    specialize (H Hlt). specialize (H' Hlt).
    apply leb_ltb_false in H'. congruence.
Qed.

Theorem scan_Some l v :
  scan candidate target l = Some v <-> closest l v.
Proof.
  assert (Hfwd : forall w,
            scan candidate target l = Some w -> closest l w).
  { unfold scan. intros w Hw.
    destruct (scan_inv_final l)
      as [[Hst _] | (i & v0 & Hst & Hat & Hsel & Hmin)].
    - rewrite Hst in Hw. discriminate.
    - rewrite Hst in Hw. simpl in Hw. injection Hw as ->.
      exists i, (snd (fold_left step l scan_init)). auto. }
  split; [apply Hfwd|].
  intros Hv. destruct (scan candidate target l) as [w|] eqn:Hw.
  - f_equal. eapply first_closest_unique; eauto.
  - exfalso. unfold scan in Hw.
    destruct (scan_inv_final l) as [[_ Hnone] | (i & v0 & Hst & _)].
    + destruct Hv as (i & d & Hat & Hsel & _). apply Hnone in Hat.
      unfold selectable in Hsel. congruence.
    + rewrite Hst in Hw. discriminate.
Qed.

Theorem scan_None l : scan candidate target l = None <-> none l.
Proof.
  unfold scan. split.
  - intros Hw.
    destruct (scan_inv_final l) as [[_ Hnone] | (i & v0 & Hst & _)]; auto.
    rewrite Hst in Hw. discriminate.
  - intros Hnone.
    destruct (scan_inv_final l)
      as [[-> _] | (i & v0 & Hst & Hat & Hsel & _)]; auto.
    apply Hnone in Hat. unfold selectable in Hsel. congruence.
Qed.
End ClosestFacts.


Lemma price_step_scan t st e :
  pickClosestPrice_step t st e = scan_step price_candidate t st e.
Proof.
  unfold pickClosestPrice_step, scan_step, price_candidate, time_diff.
  destruct e as [| | | | |elems|]; auto.
  destruct elems as [|a [|b r]]; auto.
  - cbn. destruct a; auto.
  - cbn. destruct a; auto; destruct b; auto.
Qed.

Lemma candle_step_scan t st e :
  pickClosestCandleClose_step t st e = scan_step candle_candidate t st e.
Proof.
  unfold pickClosestCandleClose_step, scan_step, candle_candidate, time_diff.
  destruct e as [| | | | |elems|]; auto.
  destruct elems as [|a [|b [|c [|d [|f r]]]]]; auto.
  all: cbn; destruct a; auto; destruct f; auto.
Qed.

Lemma pickClosestPrice_scan prices t :
  pickClosestPrice prices t = scan price_candidate t prices.
Proof.
  unfold pickClosestPrice, scan. f_equal.
  generalize scan_init. induction prices as [|e l IH]; intros st; simpl; auto.
  now rewrite price_step_scan, IH.
Qed.

Lemma pickClosestCandleClose_scan candles t :
  pickClosestCandleClose candles t = scan candle_candidate t candles.
Proof.
  unfold pickClosestCandleClose, scan. f_equal.
  generalize scan_init. induction candles as [|e l IH]; intros st; simpl; auto.
  now rewrite candle_step_scan, IH.
Qed.

Lemma scan_filter candidate t l :
  scan candidate t l = scan candidate t (filter (is_candidate candidate) l).
Proof.
  unfold scan. f_equal. generalize scan_init.
  induction l as [|e l IH]; intros st; simpl; auto.
  unfold is_candidate at 1. unfold scan_step at 2.
  destruct (candidate e) as [[ts v]|] eqn:Hc; simpl; auto.
  rewrite IH. f_equal. unfold scan_step. now rewrite Hc.
Qed.

Lemma no_candidate_none_selectable candidate t l :
  no_candidate candidate l -> none_selectable candidate t l.
Proof.
  intros Hno i v d (entry & ts & Hn & Hc & _).
  apply nth_error_In in Hn. apply Hno in Hn. congruence.
Qed.

Lemma pickClosestPrice_spec prices t v :
  pickClosestPrice prices t = Some v
  <-> first_closest price_candidate t prices v.
Proof. rewrite pickClosestPrice_scan. apply scan_Some. Qed.

Lemma pickClosestCandleClose_spec candles t v :
  pickClosestCandleClose candles t = Some v
  <-> first_closest candle_candidate t candles v.
Proof. rewrite pickClosestCandleClose_scan. apply scan_Some. Qed.

(** C3, as amended.  [pickClosestPrice] and [pickClosestCandleClose] return
    [v] exactly when [v] is the value of the first well-formed candidate of
    minimal absolute difference to the target among the candidates whose
    difference is below Infinity: strictly closer than each such candidate
    before it, at least as close as each one after it, so that on an exact
    tie the candidate met first is returned.  Among the offsets -5000, -10,
    +10, +9999 the candidate at -10 wins, and with +10 listed before -10 the
    candidate at +10 wins. *)
Theorem pickClosest_first_closest :
  (forall prices targetMs v,
      pickClosestPrice prices targetMs = Some v
      <-> first_closest price_candidate targetMs prices v)
  /\ (forall candles targetSec v,
      pickClosestCandleClose candles targetSec = Some v
      <-> first_closest candle_candidate targetSec candles v)
  /\ (let t := 1700000000000 in
      pickClosestPrice
        [price_entry t (-5000) 1; price_entry t (-10) 2;
         price_entry t 10 3; price_entry t 9999 4] (Num.of_Z t)
      = Some (Num.of_Z 2)
      /\ pickClosestPrice
        [price_entry t (-5000) 1; price_entry t 10 3;
         price_entry t (-10) 2; price_entry t 9999 4] (Num.of_Z t)
      = Some (Num.of_Z 3)
      /\ pickClosestCandleClose
        [candle_entry t (-5000) 1; candle_entry t (-10) 2;
         candle_entry t 10 3; candle_entry t 9999 4] (Num.of_Z t)
      = Some (Num.of_Z 2)
      /\ pickClosestCandleClose
        [candle_entry t (-5000) 1; candle_entry t 10 3;
         candle_entry t (-10) 2; candle_entry t 9999 4] (Num.of_Z t)
      = Some (Num.of_Z 3)).
Proof.
  split; [|split].
  - apply pickClosestPrice_spec.
  - apply pickClosestCandleClose_spec.
  - repeat split; vm_compute; reflexivity.
Qed.

(** C3, as stated, fails: in [[1e999, 7]] the only well-formed candidate is
    the closest of all the well-formed candidates, and [pickClosestPrice]
    returns null. *)
Lemma pickClosestPrice_overflowing_timestamp :
  first_closest_of_all price_candidate (Num.of_Z 0) [overflowing_price]
    (Num.of_Z 7)
  /\ is_json overflowing_price = true
  /\ pickClosestPrice [overflowing_price] (Num.of_Z 0) = None.
Proof.
  split; [|split; reflexivity].
  exists 0%nat, Num.Infinity. split.
  - exists overflowing_price, Num.Infinity. repeat split.
  - intros j v' d' (entry & ts & Hn & _). destruct j as [|j].
    + split; intros; lia.
    + destruct j; discriminate.
Qed.

(** C10, as amended.  Both scans are total functions; an entry that is not
    an array, is too short, or does not hold numbers at the timestamp and
    value positions is skipped (its iteration leaves the loop state as it is)
    and never influences the result (the scan of a list is the scan of its
    well-formed candidates); a list without a well-formed candidate gives
    null; and the result is null exactly when no well-formed candidate has an
    absolute difference to the target below Infinity. *)
Theorem pickClosest_null_iff_none_selectable :
  (forall t st entry,
      price_candidate entry = None -> pickClosestPrice_step t st entry = st)
  /\ (forall t st c,
      candle_candidate c = None -> pickClosestCandleClose_step t st c = st)
  /\ (forall prices t,
      pickClosestPrice prices t
      = pickClosestPrice (filter (is_candidate price_candidate) prices) t)
  /\ (forall candles t,
      pickClosestCandleClose candles t
      = pickClosestCandleClose
          (filter (is_candidate candle_candidate) candles) t)
  /\ (forall prices t,
      no_candidate price_candidate prices -> pickClosestPrice prices t = None)
  /\ (forall candles t,
      no_candidate candle_candidate candles
      -> pickClosestCandleClose candles t = None)
  /\ (forall prices t,
      pickClosestPrice prices t = None
      <-> none_selectable price_candidate t prices)
  /\ (forall candles t,
      pickClosestCandleClose candles t = None
      <-> none_selectable candle_candidate t candles).
Proof.
  split; [|split; [|split; [|split; [|split; [|split; [|split]]]]]]; intros.
  - rewrite price_step_scan. unfold scan_step. now rewrite H.
  - rewrite candle_step_scan. unfold scan_step. now rewrite H.
  - rewrite !pickClosestPrice_scan. apply scan_filter.
  - rewrite !pickClosestCandleClose_scan. apply scan_filter.
  - rewrite pickClosestPrice_scan. apply scan_None.
    now apply no_candidate_none_selectable.
  - rewrite pickClosestCandleClose_scan. apply scan_None.
    now apply no_candidate_none_selectable.
  - rewrite pickClosestPrice_scan. apply scan_None.
  - rewrite pickClosestCandleClose_scan. apply scan_None.
Qed.

(** C10, as stated, fails: the list [[1e999, 0, 0, 0, 5, 0]] holds a
    well-formed candle, and [pickClosestCandleClose] returns null. *)
Lemma pickClosestCandleClose_overflowing_candle :
  candle_candidate overflowing_candle = Some (Num.Infinity, Num.of_Z 5)
  /\ is_json overflowing_candle = true
  /\ pickClosestCandleClose [overflowing_candle] (Num.of_Z 1700000000) = None.
Proof. repeat split. Qed.

(** ** Integers as numbers, and [Math.round] *)

Module NumRound.
Import Num.

Lemma digits2_pos_size (m : positive) : digits2_pos m = Pos.size m.
Proof. induction m; simpl; congruence. Qed.

Lemma digits2_pos_iter (m k : positive) :
  digits2_pos (Pos.iter xO m k) = (digits2_pos m + k)%positive.
Proof.
  induction k using Pos.peano_ind.
  - simpl. now rewrite Pos.add_1_r.
  - rewrite Pos.iter_succ. simpl. rewrite IHk. lia.
Qed.

Lemma Zpos_iter_xO (m k : positive) :
  Zpos (Pos.iter xO m k) = Zpos m * 2 ^ Zpos k.
Proof.
  induction k using Pos.peano_ind.
  - simpl. lia.
  - rewrite Pos.iter_succ, Pos2Z.inj_xO, IHk, Pos2Z.inj_succ, Z.pow_succ_r; lia.
Qed.

Lemma Zpos_lt_pow_digits (m : positive) : Zpos m < 2 ^ Zpos (digits2_pos m).
Proof.
  rewrite digits2_pos_size. pose proof (Pos.size_gt m) as H.
  apply Pos2Z.pos_lt_pos in H. now rewrite Pos2Z.inj_pow in H.
Qed.

Lemma pow_digits_le (m : positive) : 2 ^ Zpos (digits2_pos m) <= 2 * Zpos m.
Proof.
  rewrite digits2_pos_size. pose proof (Pos.size_le m) as H.
  apply Pos2Z.pos_le_pos in H. now rewrite Pos2Z.inj_pow in H.
Qed.

Lemma digits_le_prec (m : positive) :
  Zpos m < 2 ^ 53 -> Zpos (digits2_pos m) <= 53.
Proof.
  intros Hm. pose proof (pow_digits_le m) as Hle.
  destruct (Z_le_gt_dec (Zpos (digits2_pos m)) 53) as [H | H]; auto.
  exfalso. assert (2 ^ 54 <= 2 ^ Zpos (digits2_pos m))
    by (apply Z.pow_le_mono_r; lia).
  change (2 ^ 54) with (2 * 2 ^ 53) in *. lia.
Qed.

Lemma shr_fexp_canonical (m : positive) e :
  Zpos (digits2_pos m) = 53 -> -1074 <= e ->
  shr_fexp prec emax (Zpos m) e loc_Exact
  = ({| shr_m := Zpos m; shr_r := false; shr_s := false |}, e).
Proof.
  intros Hd He. unfold shr_fexp, fexp, emin, prec, emax.
  cbn [Zdigits2 shr_record_of_loc]. rewrite Hd.
  replace (Z.max (53 + e - 53) (3 - 1024 - 53) - e) with 0 by lia.
  reflexivity.
Qed.

(** A mantissa of exactly 53 digits with an exponent in range is left as it
    is by the rounding of the format. *)
Lemma binary_round_aux_canonical s (m : positive) e :
  Zpos (digits2_pos m) = 53 -> -1074 <= e <= 971 ->
  binary_round_aux prec emax s (Zpos m) e loc_Exact = S754_finite s m e.
Proof.
  intros Hd He. unfold binary_round_aux.
  rewrite shr_fexp_canonical by lia.
  cbn [shr_m loc_of_shr_record round_nearest_even].
  rewrite shr_fexp_canonical by lia. cbn [shr_m].
  unfold emax, prec.
  replace (e <=? 1024 - 53) with true by (symmetry; apply Z.leb_le; lia).
  reflexivity.
Qed.

(** The number of a positive integer below 2^53: the integer, shifted to 53
    digits. *)
Lemma binary_round_integer s (m : positive) :
  Zpos m < 2 ^ 53 ->
  exists m' e, binary_round prec emax s m 0 = S754_finite s m' e
            /\ -52 <= e <= 0 /\ Zpos m' = Zpos m * 2 ^ (- e).
Proof.
  intros Hm. pose proof (digits_le_prec m Hm) as Hd.
  unfold binary_round, shl_align, fexp, emin, prec, emax.
  rewrite Z.add_0_r, Z.sub_0_r.
  replace (Z.max (Zpos (digits2_pos m) - 53) (3 - 1024 - 53))
    with (Zpos (digits2_pos m) - 53) by lia.
  destruct (Zpos (digits2_pos m) - 53) as [|k|k] eqn:Hk; try lia.
  - exists m, 0. rewrite binary_round_aux_canonical by lia.
    repeat split; simpl; lia.
  - exists (Pos.iter xO m k), (Zneg k).
    rewrite binary_round_aux_canonical.
    + repeat split; try lia. now rewrite Zpos_iter_xO.
    + rewrite digits2_pos_iter. lia.
    + lia.
Qed.

Lemma to_Z_shifted s (m' : positive) e n :
  e <= 0 -> 0 < n -> Zpos m' = n * 2 ^ (- e) ->
  to_Z (S754_finite s m' e) = Some (cond_Zopp s n).
Proof.
  intros He Hn Hm. unfold to_Z.
  destruct (Z.eq_dec e 0) as [-> | Hne].
  - simpl in *. do 2 f_equal. lia.
  - replace (0 <=? e) with false by (symmetry; apply Z.leb_gt; lia).
    assert (Hp : 0 < 2 ^ (- e)) by (apply Z.pow_pos_nonneg; lia).
    rewrite Hm, Z.mod_mul, Z.div_mul by lia. reflexivity.
Qed.

(** An integer of magnitude below 2^53 is represented exactly. *)
Lemma to_Z_binary_normalize (n : Z) (szero : bool) :
  - 2 ^ 53 < n < 2 ^ 53 ->
  to_Z (binary_normalize prec emax n 0 szero) = Some n.
Proof.
  intros Hn. destruct n as [|m|m]; simpl binary_normalize.
  - reflexivity.
  - destruct (binary_round_integer false m) as (m' & e & -> & He & Hm'); [lia|].
    apply (to_Z_shifted false m' e (Zpos m)); [lia | lia | exact Hm'].
  - destruct (binary_round_integer true m) as (m' & e & -> & He & Hm'); [lia|].
    apply (to_Z_shifted true m' e (Zpos m)); [lia | lia | exact Hm'].
Qed.

Lemma to_Z_of_Z (n : Z) : - 2 ^ 53 < n < 2 ^ 53 -> to_Z (of_Z n) = Some n.
Proof. apply to_Z_binary_normalize. Qed.

Lemma round_half_up_nearest s m e :
  e < 0 ->
  (2 * round_half_up s m e - 1) * 2 ^ (- e) <= 2 * cond_Zopp s (Zpos m)
  < (2 * round_half_up s m e + 1) * 2 ^ (- e).
Proof.
  intros He. unfold round_half_up.
  replace (1 - e) with (Z.succ (- e)) by lia.
  rewrite Z.pow_succ_r by lia.
  assert (Hp : 0 < 2 ^ (- e)) by (apply Z.pow_pos_nonneg; lia).
  set (a := 2 * cond_Zopp s (Zpos m)). set (p := 2 ^ (- e)) in *.
  pose proof (Z.div_mod (a + p) (2 * p) ltac:(lia)) as Hdm.
  pose proof (Z.mod_pos_bound (a + p) (2 * p) ltac:(lia)) as Hb.
  nia.
Qed.

Lemma valid_finite_mantissa s m e :
  valid (S754_finite s m e) = true -> Zpos m < 2 ^ 53.
Proof.
  unfold valid, valid_binary, bounded, canonical_mantissa, fexp, emin.
  unfold prec, emax.
  intros H. apply andb_true_iff in H as [H _]. apply Z.eqb_eq in H.
  pose proof (Zpos_lt_pow_digits m) as Hlt.
  assert (Zpos (digits2_pos m) <= 53) by lia.
  assert (2 ^ Zpos (digits2_pos m) <= 2 ^ 53) by (apply Z.pow_le_mono_r; lia).
  lia.
Qed.

(** [Math.round] gives the integer nearest to a finite number, the greater
    one on a tie. *)
Lemma Math_round_rounded (x : number) :
  valid x = true -> rounded x (Math_round x).
Proof.
  intros Hv. destruct x as [s|s| |s m e]; simpl; try reflexivity.
  - exists 0. split; reflexivity.
  - destruct (0 <=? e) eqn:He.
    + exists (cond_Zopp s (Zpos m * 2 ^ e)). simpl. rewrite He. auto.
    + apply Z.leb_gt in He.
      pose proof (round_half_up_nearest s m e He) as Hn.
      pose proof (valid_finite_mantissa s m e Hv) as Hm.
      exists (round_half_up s m e). split; [|exact Hn].
      apply to_Z_binary_normalize.
      assert (Hp : 2 <= 2 ^ (- e)).
      { change 2 with (2 ^ 1) at 1. apply Z.pow_le_mono_r; lia. }
      assert (Ha : - 2 ^ 53 < cond_Zopp s (Zpos m) < 2 ^ 53)
        by (destruct s; simpl; lia).
      set (p := 2 ^ (- e)) in *. set (a := cond_Zopp s (Zpos m)) in *.
      set (n := round_half_up s m e) in *.
      change (2 ^ 53) with 9007199254740992 in *. nia.
Qed.

End NumRound.

(** ** The order of integral numbers *)

Module NumCompare.
Import Num NumRound.

(** The number of a positive integer below 2^53 has a mantissa of exactly 53
    digits. *)
Lemma binary_round_integer_digits s (m : positive) :
  Zpos m < 2 ^ 53 ->
  exists m' e, binary_round prec emax s m 0 = S754_finite s m' e
            /\ -52 <= e <= 0 /\ Zpos m' = Zpos m * 2 ^ (- e)
            /\ Zpos (digits2_pos m') = 53.
Proof.
  intros Hm. pose proof (digits_le_prec m Hm) as Hd.
  unfold binary_round, shl_align, fexp, emin, prec, emax.
  rewrite Z.add_0_r, Z.sub_0_r.
  replace (Z.max (Zpos (digits2_pos m) - 53) (3 - 1024 - 53))
    with (Zpos (digits2_pos m) - 53) by lia.
  destruct (Zpos (digits2_pos m) - 53) as [|k|k] eqn:Hk; try lia.
  - exists m, 0. rewrite binary_round_aux_canonical by lia.
    repeat split; simpl; lia.
  - assert (Hdk : Zpos (digits2_pos (Pos.iter xO m k)) = 53)
      by (rewrite digits2_pos_iter; lia).
    exists (Pos.iter xO m k), (Zneg k).
    rewrite binary_round_aux_canonical by lia.
    repeat split; try lia. now rewrite Zpos_iter_xO.
Qed.

Lemma mantissa_bounds (m : positive) :
  Zpos (digits2_pos m) = 53 -> 2 ^ 52 <= Zpos m < 2 ^ 53.
Proof.
  intros Hd. pose proof (Zpos_lt_pow_digits m) as Hlt.
  pose proof (pow_digits_le m) as Hle. rewrite Hd in *.
  change (2 ^ 53) with (2 * 2 ^ 52) in Hle. lia.
Qed.

(** Mantissas of 53 digits compare, exponent first, as the integers they
    stand for. *)
Lemma compare_canonical (m1 m2 : positive) e1 e2 p q :
  Zpos (digits2_pos m1) = 53 -> Zpos (digits2_pos m2) = 53 ->
  e1 <= 0 -> e2 <= 0 -> 0 < p -> 0 < q ->
  Zpos m1 = p * 2 ^ (- e1) -> Zpos m2 = q * 2 ^ (- e2) ->
  match e1 ?= e2 with
  | Lt => Lt
  | Gt => Gt
  | Eq => Pos.compare_cont Eq m1 m2
  end = (p ?= q).
Proof.
  intros Hd1 Hd2 He1 He2 Hp Hq Hm1 Hm2.
  apply mantissa_bounds in Hd1, Hd2.
  change (2 ^ 53) with (2 * 2 ^ 52) in *.
  set (B := 2 ^ 52) in *.
  destruct (Z.compare_spec e1 e2) as [Heq | Hlt | Hgt].
  - subst e2. change (Pos.compare_cont Eq m1 m2) with (Zpos m1 ?= Zpos m2).
    rewrite Hm1, Hm2.
    assert (Hpow : 0 < 2 ^ (- e1)) by (apply Z.pow_pos_nonneg; lia).
    symmetry. apply Zmult_compare_compat_r. lia.
  - symmetry. apply Z.compare_lt_iff.
    replace (- e1) with ((e2 - e1) + (- e2)) in Hm1 by lia.
    rewrite Z.pow_add_r in Hm1 by lia.
    assert (Hs : 2 <= 2 ^ (e2 - e1)).
    { change 2 with (2 ^ 1) at 1. apply Z.pow_le_mono_r; lia. }
    assert (Hpow : 0 < 2 ^ (- e2)) by (apply Z.pow_pos_nonneg; lia).
    set (S := 2 ^ (e2 - e1)) in *. set (A := 2 ^ (- e2)) in *.
    destruct (Z_lt_ge_dec p q) as [|Hge]; [assumption|exfalso].
    assert (q * A <= p * A) by nia.
    assert (p * A * 2 <= p * (S * A)) by nia.
    lia.
  - symmetry. apply Z.compare_gt_iff.
    replace (- e2) with ((e1 - e2) + (- e1)) in Hm2 by lia.
    rewrite Z.pow_add_r in Hm2 by lia.
    assert (Hs : 2 <= 2 ^ (e1 - e2)).
    { change 2 with (2 ^ 1) at 1. apply Z.pow_le_mono_r; lia. }
    assert (Hpow : 0 < 2 ^ (- e1)) by (apply Z.pow_pos_nonneg; lia).
    set (S := 2 ^ (e1 - e2)) in *. set (A := 2 ^ (- e1)) in *.
    destruct (Z_lt_ge_dec q p) as [|Hge]; [assumption|exfalso].
    assert (p * A <= q * A) by nia.
    assert (q * A * 2 <= q * (S * A)) by nia.
    lia.
Qed.

(** On integers of magnitude below 2^53 the comparison of numbers is the
    comparison of integers. *)
Lemma compare_of_Z (a b : Z) :
  - 2 ^ 53 < a < 2 ^ 53 -> - 2 ^ 53 < b < 2 ^ 53 ->
  SFcompare (of_Z a) (of_Z b) = Some (a ?= b).
Proof.
  intros Ha Hb. unfold of_Z.
  destruct a as [|p|p], b as [|q|q]; simpl binary_normalize;
    try reflexivity;
    try (destruct (binary_round_integer_digits false p ltac:(lia))
           as (m1 & e1 & -> & He1 & Hm1 & Hd1));
    try (destruct (binary_round_integer_digits true p ltac:(lia))
           as (m1 & e1 & -> & He1 & Hm1 & Hd1));
    try (destruct (binary_round_integer_digits false q ltac:(lia))
           as (m2 & e2 & -> & He2 & Hm2 & Hd2));
    try (destruct (binary_round_integer_digits true q ltac:(lia))
           as (m2 & e2 & -> & He2 & Hm2 & Hd2));
    try reflexivity.
  - simpl. f_equal.
    apply (compare_canonical m1 m2 e1 e2 (Zpos p) (Zpos q)); lia.
  - simpl. f_equal.
    transitivity (CompOpp match e1 ?= e2 with
                          | Lt => Lt
                          | Gt => Gt
                          | Eq => Pos.compare_cont Eq m1 m2
                          end).
    { now destruct (e1 ?= e2). }
    rewrite (compare_canonical m1 m2 e1 e2 (Zpos p) (Zpos q)) by lia.
    reflexivity.
Qed.


Lemma leb_of_Z (a b : Z) :
  - 2 ^ 53 < a < 2 ^ 53 -> - 2 ^ 53 < b < 2 ^ 53 ->
  leb (of_Z a) (of_Z b) = (a <=? b).
Proof.
  intros Ha Hb. unfold leb, SFleb. rewrite compare_of_Z by assumption.
  unfold Z.leb. now destruct (a ?= b).
Qed.

End NumCompare.

(** ** The promise store *)

Lemma nth_error_Some_length {A} (l : list A) n x :
  nth_error l n = Some x -> (n < length l)%nat.
Proof. intros H. apply nth_error_Some. congruence. Qed.

Lemma set_nth_length {A} i (x : A) l : length (set_nth i x l) = length l.
Proof.
  revert i; induction l as [|a l IH]; intros [|i]; simpl; auto.
Qed.

Lemma nth_error_set_nth_eq {A} i (x : A) l :
  (i < length l)%nat -> nth_error (set_nth i x l) i = Some x.
Proof.
  revert i; induction l as [|a l IH]; intros [|i] H; simpl in *; try lia; auto.
  apply IH; lia.
Qed.

Lemma nth_error_set_nth_ne {A} i j (x : A) l :
  i <> j -> nth_error (set_nth i x l) j = nth_error l j.
Proof.
  revert i j; induction l as [|a l IH]; intros [|i] [|j] H; simpl; auto.
  congruence.
Qed.

Lemma set_nth_same {A} i (x : A) l :
  nth_error l i = Some x -> set_nth i x l = l.
Proof.
  revert i; induction l as [|a l IH]; intros [|i] H; simpl in *; try congruence.
  f_equal; auto.
Qed.

Lemma set_nth_set_nth {A} i (x y : A) l :
  set_nth i y (set_nth i x l) = set_nth i y l.
Proof.
  revert i; induction l as [|a l IH]; intros [|i]; simpl; auto.
  f_equal; auto.
Qed.

Lemma nth_error_pending_lt s p ws :
  nth_error (promises s) p = Some (Pending ws) -> (p < length (promises s))%nat.
Proof. intros H. apply nth_error_Some. congruence. Qed.

(** ** At most one refresh is in flight *)

Lemma await_promise_coherent cfg s p c :
  coherent s -> inFlight s = Some p ->
  coherent (fst (await_promise cfg s p c)).
Proof.
  intros [Hin Hpend] Hp. unfold await_promise.
  destruct (Hin p Hp) as [ws Hws]. rewrite Hws. simpl.
  pose proof (nth_error_pending_lt _ _ _ Hws) as Hlt.
  split; simpl.
  - intros q Hq. rewrite Hp in Hq. injection Hq as <-.
    eexists. now apply nth_error_set_nth_eq.
  - intros q ws' Hq. destruct (Nat.eq_dec p q) as [<- | Hne]; auto.
    rewrite nth_error_set_nth_ne in Hq by auto. eauto.
Qed.

Lemma GET_call_coherent cfg s c now :
  coherent s -> coherent (fst (GET_call cfg s c now)).
Proof.
  intros Hco. unfold GET_call.
  destruct (fresh cfg s now); [exact Hco|].
  destruct (inFlight s) as [p|] eqn:Hp.
  - now apply await_promise_coherent.
  - apply await_promise_coherent; auto.
    destruct Hco as [_ Hpend]. split; simpl.
    + intros q Hq. injection Hq as <-. exists [].
      rewrite nth_error_app2 by lia. now rewrite Nat.sub_diag.
    + intros q ws' Hq.
      destruct (Nat.lt_ge_cases q (length (promises s))) as [Hlt | Hge].
      * rewrite nth_error_app1 in Hq by auto. apply Hpend in Hq. congruence.
      * f_equal. apply nth_error_Some_length in Hq as Hlen.
        rewrite length_app in Hlen. simpl in Hlen. lia.
Qed.


Lemma settle_coherent cfg s p outcome now s' out :
  coherent s -> settle cfg s p outcome now = Some (s', out) -> coherent s'.
Proof.
  intros [Hin Hpend] Hs. unfold settle in Hs.
  destruct (nth_error (promises s) p) as [[ws|o]|] eqn:Hp; try discriminate.
  injection Hs as Hs _. subst s'. split; simpl.
  - discriminate.
  - intros q ws' Hq. exfalso.
    destruct (Nat.eq_dec p q) as [<- | Hne].
    + rewrite nth_error_set_nth_eq in Hq by eauto using nth_error_Some_length.
      discriminate.
    + rewrite nth_error_set_nth_ne in Hq by auto.
      apply Hpend in Hq. apply Hpend in Hp. congruence.
Qed.

Lemma step_coherent cfg s ev s' out :
  coherent s -> step cfg s ev = Some (s', out) -> coherent s'.
Proof.
  intros Hco Hs. destruct ev as [c now | p outcome now]; simpl in Hs.
  - injection Hs as Hs. change s' with (fst (s', out)). rewrite <- Hs.
    now apply GET_call_coherent.
  - eauto using settle_coherent.
Qed.

Lemma run_coherent cfg evs : forall s s' out,
  coherent s -> run cfg s evs = Some (s', out) -> coherent s'.
Proof.
  induction evs as [|ev evs IH]; intros s s' out Hco Hrun; simpl in Hrun.
  - now injection Hrun as <- _.
  - destruct (step cfg s ev) as [[s1 out1]|] eqn:Hstep; try discriminate.
    destruct (run cfg s1 evs) as [[s2 out2]|] eqn:Hrest; try discriminate.
    injection Hrun as <- _. eauto using step_coherent.
Qed.

Lemma initial_coherent : coherent initial.
Proof.
  split; simpl; [discriminate|]. intros [|p] ws H; discriminate.
Qed.

Lemma reachable_coherent cfg s : reachable cfg s -> coherent s.
Proof.
  intros (evs & out & Hrun). eauto using run_coherent, initial_coherent.
Qed.

(** ** Callers that miss the cache join the refresh in flight *)

Lemma fresh_same_cache cfg s s' now :
  cachedValue s' = cachedValue s -> fresh cfg s' now = fresh cfg s now.
Proof. unfold fresh. now intros ->. Qed.

Lemma run_calls_join cfg calls : forall s p ws,
  inFlight s = Some p ->
  nth_error (promises s) p = Some (Pending ws) ->
  (forall c now, In (c, now) calls -> fresh cfg s now = None) ->
  run cfg s (calls_of calls)
  = Some ({| cachedValue := cachedValue s;
             inFlight := Some p;
             promises :=
               set_nth p (Pending (ws ++ map fst calls)) (promises s) |},
          []).
Proof.
  induction calls as [|[c now] calls IH]; intros s p ws Hp Hws Hmiss; simpl.
  - rewrite app_nil_r, set_nth_same by auto. destruct s; simpl in *. now subst.
  - unfold GET_call. rewrite (Hmiss c now) by (now left). rewrite Hp.
    unfold await_promise. rewrite Hws.
    fold (calls_of calls). rewrite (IH _ p (ws ++ [c])); simpl.
    + now rewrite set_nth_set_nth, <- app_assoc.
    + exact Hp.
    + apply nth_error_set_nth_eq. eauto using nth_error_Some_length.
    + intros c' now' Hin. rewrite <- (Hmiss c' now') by (now right).
      now apply fresh_same_cache.
Qed.

Lemma set_nth_last {A} (x y : A) l :
  set_nth (length l) y (l ++ [x]) = l ++ [y].
Proof. induction l as [|a l IH]; simpl; auto. now f_equal. Qed.

Lemma nth_error_last {A} (x : A) l : nth_error (l ++ [x]) (length l) = Some x.
Proof. rewrite nth_error_app2 by lia. now rewrite Nat.sub_diag. Qed.

Lemma run_calls_start cfg c now calls s :
  inFlight s = None ->
  (forall c' now',
      In (c', now') ((c, now) :: calls) -> fresh cfg s now' = None) ->
  run cfg s (calls_of ((c, now) :: calls))
  = Some ({| cachedValue := cachedValue s;
             inFlight := Some (length (promises s));
             promises := promises s ++ [Pending (c :: map fst calls)] |},
          []).
Proof.
  intros Hidle Hmiss. simpl. unfold GET_call.
  rewrite (Hmiss c now) by (now left). rewrite Hidle.
  unfold await_promise. simpl. rewrite nth_error_last, set_nth_last.
  fold (calls_of calls).
  rewrite (run_calls_join cfg calls _ (length (promises s)) [c]); simpl.
  - now rewrite set_nth_last.
  - reflexivity.
  - apply nth_error_last.
  - intros c' now' Hin. rewrite <- (Hmiss c' now') by (now right).
    now apply fresh_same_cache.
Qed.

(** C1.  Let two or more callers invoke [GET] one after the other, before any
    settlement, each at a moment when the cache holds no fresh entry.  Then
    none of them is answered yet, a single promise is pending and all of them
    are suspended on it; [fetchFromCoinGecko] has been called exactly once
    more than before when no refresh was in flight at the first arrival (and
    not at all when one was, which the callers then join).  When that promise
    settles, every one of the callers receives the response built from the
    same outcome: the payload with status 200 on success, the same error
    response on failure; the settlement calls [fetchFromCoinGecko] no
    further. *)
Theorem single_flight cfg (s : Server) (calls : list (Caller * Z)) :
  reachable cfg s ->
  (2 <= length calls)%nat ->
  (forall c now, In (c, now) calls -> fresh cfg s now = None) ->
  exists s' p ws,
    run cfg s (calls_of calls) = Some (s', [])
    /\ inFlight s' = Some p
    /\ nth_error (promises s') p = Some (Pending (ws ++ map fst calls))
    /\ (forall q ws', nth_error (promises s') q = Some (Pending ws') -> q = p)
    /\ (inFlight s = None -> executions s' = S (executions s) /\ ws = [])
    /\ (inFlight s <> None -> executions s' = executions s)
    /\ forall outcome now,
        exists s'',
          step cfg s' (Settle p outcome now)
          = Some (s'', map (fun c => (c, GET_resume cfg outcome))
                           (ws ++ map fst calls))
          /\ executions s'' = executions s'
          /\ (forall fetched, outcome = Return fetched ->
                GET_resume cfg outcome = Return (okJson cfg fetched "MISS"))
          /\ (forall e, outcome = Throw e ->
                GET_resume cfg outcome
                = Return (errJson (error_message e) 502 "MISS")).
Proof.
  intros Hreach Hlen Hmiss.
  pose proof (reachable_coherent _ _ Hreach) as Hco.
  assert (Hgoal : exists s' p ws,
    run cfg s (calls_of calls) = Some (s', [])
    /\ inFlight s' = Some p
    /\ nth_error (promises s') p = Some (Pending (ws ++ map fst calls))
    /\ (inFlight s = None -> executions s' = S (executions s) /\ ws = [])
    /\ (inFlight s <> None -> executions s' = executions s)).
  { destruct (inFlight s) as [p|] eqn:Hp.
    - destruct Hco as [Hin _]. destruct (Hin p Hp) as [ws Hws].
      eexists _, p, ws.
      split; [exact (run_calls_join cfg calls s p ws Hp Hws Hmiss)|]. simpl.
      split; [reflexivity|]. split; [|split; [discriminate|]].
      + apply nth_error_set_nth_eq. eauto using nth_error_Some_length.
      + intros _. unfold executions. simpl. apply set_nth_length.
    - destruct calls as [|[c now] calls]; [simpl in Hlen; lia|].
      eexists _, (length (promises s)), [].
      split; [exact (run_calls_start cfg c now calls s Hp Hmiss)|]. simpl.
      split; [reflexivity|]. split; [|split; [|congruence]].
      + apply nth_error_last.
      + intros _. split; [|reflexivity].
        unfold executions. simpl. rewrite length_app. simpl. lia. }
  destruct Hgoal as (s' & p & ws & Hrun & Hp' & Hws' & Hidle & Hbusy).
  exists s', p, ws.
  split; [exact Hrun|]. split; [exact Hp'|]. split; [exact Hws'|].
  split; [|split; [exact Hidle|split; [exact Hbusy|]]].
  - intros q ws' Hq.
    assert (Hco' : coherent s') by eauto using run_coherent.
    destruct Hco' as [_ Hpend]. apply Hpend in Hq. congruence.
  - intros outcome now. simpl. unfold settle. rewrite Hws'.
    eexists. split; [reflexivity|]. split; [|split].
    + unfold executions. simpl. apply set_nth_length.
    + now intros fetched ->.
    + now intros e ->.
Qed.

Lemma single_flight_witness :
  reachable default_config initial
  /\ (forall c now, In (c, now) [(1%nat, 1000); (2%nat, 1001)] ->
        fresh default_config initial now = None)
  /\ exists s' p ws,
      run default_config initial (calls_of [(1%nat, 1000); (2%nat, 1001)])
      = Some (s', [])
      /\ inFlight s' = Some p
      /\ nth_error (promises s') p = Some (Pending (ws ++ [1%nat; 2%nat]))
      /\ (forall q ws',
            nth_error (promises s') q = Some (Pending ws') -> q = p).
Proof.
  assert (Hreach : reachable default_config initial)
    by (exists [], []; reflexivity).
  assert (Hmiss : forall c now, In (c, now) [(1%nat, 1000); (2%nat, 1001)] ->
                    fresh default_config initial now = None)
    by (intros; reflexivity).
  split; [exact Hreach|]. split; [exact Hmiss|].
  destruct (single_flight default_config initial [(1%nat, 1000); (2%nat, 1001)]
              Hreach (le_n 2) Hmiss)
    as (s' & p & ws & Hrun & Hp & Hws & Hone & _).
  exists s', p, ws. auto.
Defined.

(** ** Cache hits *)

(** C2.  When the cache holds an entry and [now - cachedAtMs] is below
    [CACHE_TTL_SECONDS * 1000], [GET] answers at once with status 200, the
    stored payload unchanged and [x-cache: HIT], and leaves the module state
    as it was: no promise is created, [fetchFromCoinGecko] is not called.
    With the default TTL of 900 seconds this is the case for a call at the
    instant the entry was stored and for a call 899 seconds later. *)
Theorem cache_hit_within_ttl cfg s c now entry :
  cachedValue s = Some entry ->
  Num.ltb (Num.of_Z (now - cachedAtMs entry))
          (Num.mul (CACHE_TTL_SECONDS cfg) (Num.of_Z 1000)) = true ->
  GET_call cfg s c now = (s, [(c, Return (okJson cfg (payload entry) "HIT"))])
  /\ http_status (okJson cfg (payload entry) "HIT") = 200
  /\ http_body (okJson cfg (payload entry) "HIT") = PayloadBody (payload entry)
  /\ x_cache (okJson cfg (payload entry) "HIT") = "HIT"%string
  /\ (CACHE_TTL_SECONDS cfg = Num.of_Z 900 ->
      forall c1 c2,
        run cfg s [Call c1 (cachedAtMs entry);
                   Call c2 (cachedAtMs entry + 900 * 1000 - 1000)]
        = Some (s, [(c1, Return (okJson cfg (payload entry) "HIT"));
                    (c2, Return (okJson cfg (payload entry) "HIT"))])).
Proof.
  intros Hc Hfresh.
  assert (Hhit : forall c' now',
    Num.ltb (Num.of_Z (now' - cachedAtMs entry))
            (Num.mul (CACHE_TTL_SECONDS cfg) (Num.of_Z 1000)) = true ->
    GET_call cfg s c' now'
    = (s, [(c', Return (okJson cfg (payload entry) "HIT"))])).
  { intros c' now' H. unfold GET_call, fresh. now rewrite Hc, H. }
  repeat split; auto.
  intros Httl c1 c2.
  assert (H0 : Num.ltb (Num.of_Z (cachedAtMs entry - cachedAtMs entry))
                 (Num.mul (CACHE_TTL_SECONDS cfg) (Num.of_Z 1000)) = true)
    by (rewrite Httl, Z.sub_diag; reflexivity).
  assert (H1 : Num.ltb
                 (Num.of_Z (cachedAtMs entry + 900 * 1000 - 1000
                            - cachedAtMs entry))
                 (Num.mul (CACHE_TTL_SECONDS cfg) (Num.of_Z 1000)) = true).
  { replace (cachedAtMs entry + 900 * 1000 - 1000 - cachedAtMs entry)
      with 899000 by lia.
    rewrite Httl. reflexivity. }
  cbn [run step]. now rewrite (Hhit c1 _ H0), (Hhit c2 _ H1).
Qed.

Lemma cache_hit_within_ttl_witness :
  let t := 1700000000000 in
  cachedValue (cached_server t)
  = Some {| payload := sample_payload; cachedAtMs := t |}
  /\ GET_call default_config (cached_server t) 7%nat (t + 899999)
     = (cached_server t,
        [(7%nat, Return (okJson default_config sample_payload "HIT"))]).
Proof.
  split; [reflexivity|].
  apply (cache_hit_within_ttl default_config (cached_server 1700000000000)
           7%nat (1700000000000 + 899999)
           {| payload := sample_payload; cachedAtMs := 1700000000000 |});
    reflexivity.
Defined.

(** ** Settlement of a refresh *)

Lemma GET_resume_returns cfg outcome :
  exists r, GET_resume cfg outcome = Return r.
Proof. destruct outcome; eexists; reflexivity. Qed.

(** C8.  A pending refresh settles, whatever its outcome: [settle] is
    defined on it and resumes each of its waiters with that outcome.
    Afterwards [inFlight] is null whether the pipeline succeeded or failed;
    on success [cachedValue] is, in that one step, the new entry made of the
    fetched payload and of the clock reading at completion; on failure
    [cachedValue] is what it was before; and the promise is settled with the
    outcome.  In a coherent server the pending refresh is the one in flight,
    and no promise is left pending. *)
Theorem refresh_settles cfg s p ws outcome now :
  nth_error (promises s) p = Some (Pending ws) ->
  exists s',
    settle cfg s p outcome now
    = Some (s', map (fun c => (c, GET_resume cfg outcome)) ws)
    /\ inFlight s' = None
    /\ (forall fetched, outcome = Return fetched ->
          cachedValue s' = Some {| payload := fetched; cachedAtMs := now |})
    /\ (forall e, outcome = Throw e -> cachedValue s' = cachedValue s)
    /\ nth_error (promises s') p = Some (Settled outcome)
    /\ (coherent s ->
          inFlight s = Some p
          /\ forall q ws', nth_error (promises s') q <> Some (Pending ws')).
Proof.
  intros Hp.
  destruct (settle cfg s p outcome now) as [[s' out]|] eqn:Hs;
    [|unfold settle in Hs; rewrite Hp in Hs; discriminate].
  assert (Hco : coherent s -> coherent s') by eauto using settle_coherent.
  unfold settle in Hs. rewrite Hp in Hs. injection Hs as Hs <-. subst s'.
  eexists. split; [reflexivity|]. cbn [inFlight cachedValue promises].
  split; [reflexivity|]. split; [now intros fetched ->|].
  split; [now intros e ->|]. split.
  - apply nth_error_set_nth_eq. eauto using nth_error_Some_length.
  - intros Hcoh. split; [now apply (proj2 Hcoh p ws)|].
    intros q ws' Hq. destruct (Hco Hcoh) as [_ Hpend].
    apply Hpend in Hq. discriminate.
Qed.

Lemma refresh_settles_witness :
  (exists s',
      settle default_config refreshing_server 0 (Return sample_payload) 5000
      = Some (s', [(1%nat, Return (okJson default_config sample_payload
                                     "MISS"));
                   (2%nat, Return (okJson default_config sample_payload
                                     "MISS"))])
      /\ inFlight s' = None
      /\ cachedValue s'
         = Some {| payload := sample_payload; cachedAtMs := 5000 |})
  /\ (exists s',
        settle default_config refreshing_server 0
          (Throw (Error "Coinbase candles error: 503 Service Unavailable"))
          5000
        = Some (s', [(1%nat, Return (errJson
                       "Coinbase candles error: 503 Service Unavailable"
                       502 "MISS"));
                     (2%nat, Return (errJson
                       "Coinbase candles error: 503 Service Unavailable"
                       502 "MISS"))])
        /\ inFlight s' = None
        /\ cachedValue s' = cachedValue refreshing_server).
Proof.
  split.
  - destruct (refresh_settles default_config refreshing_server 0
                [1%nat; 2%nat] (Return sample_payload) 5000 eq_refl)
      as (s' & Hs & Hin & Hok & _).
    exists s'. split; [exact Hs|]. split; [exact Hin|].
    apply Hok. reflexivity.
  - destruct (refresh_settles default_config refreshing_server 0
                [1%nat; 2%nat]
                (Throw (Error
                   "Coinbase candles error: 503 Service Unavailable"))
                5000 eq_refl)
      as (s' & Hs & Hin & _ & Hfail & _).
    exists s'. split; [exact Hs|]. split; [exact Hin|].
    apply (Hfail _ eq_refl).
Defined.

(** C7.  When the refresh that callers await fails with error [e], every one
    of them is answered (the rejection is caught: [GET] returns a response
    for every outcome) with status 502, the body [{ error: message }],
    [Cache-Control: public, s-maxage=30, stale-while-revalidate=300] and
    [x-cache: MISS].  The server is then idle with its cache untouched, and
    the next call is served as usual: from the cache when its entry is
    fresh, otherwise by a new refresh whose outcome that caller receives. *)
Theorem failed_refresh_gives_502 cfg s p ws e now :
  nth_error (promises s) p = Some (Pending ws) ->
  exists s' r,
    settle cfg s p (Throw e) now = Some (s', map (fun c => (c, Return r)) ws)
    /\ http_status r = 502
    /\ http_body r = ErrorBody (error_message e)
    /\ cache_control r = {| s_maxage := Num.of_Z 30;
                            stale_while_revalidate := Num.of_Z 300 |}
    /\ x_cache r = "MISS"%string
    /\ (forall outcome, exists r', GET_resume cfg outcome = Return r')
    /\ inFlight s' = None
    /\ cachedValue s' = cachedValue s
    /\ forall c' now',
        (exists cached,
            fresh cfg s' now' = Some cached
            /\ GET_call cfg s' c' now'
               = (s', [(c', Return (okJson cfg cached "HIT"))]))
        \/ (fresh cfg s' now' = None
            /\ exists s1,
                GET_call cfg s' c' now' = (s1, [])
                /\ inFlight s1 = Some (length (promises s'))
                /\ executions s1 = S (executions s')
                /\ forall outcome now'',
                    exists s2,
                      settle cfg s1 (length (promises s')) outcome now''
                      = Some (s2, [(c', GET_resume cfg outcome)])).
Proof.
  intros Hp. unfold settle. rewrite Hp.
  eexists _, (errJson (error_message e) 502 "MISS").
  split; [reflexivity|]. do 4 (split; [reflexivity|]).
  split; [apply GET_resume_returns|]. do 2 (split; [reflexivity|]).
  intros c' now'. unfold GET_call.
  destruct (fresh cfg _ now') as [cached|] eqn:Hfresh.
  - left. exists cached. auto.
  - right. split; [reflexivity|]. simpl.
    unfold await_promise. simpl. rewrite nth_error_last, set_nth_last.
    eexists. split; [reflexivity|]. simpl. split; [reflexivity|]. split.
    + unfold executions. simpl. rewrite length_app. simpl. lia.
    + intros outcome now''. unfold settle. simpl. rewrite nth_error_last.
      eexists. reflexivity.
Qed.

Lemma failed_refresh_gives_502_witness :
  nth_error (promises refreshing_server) 0 = Some (Pending [1%nat; 2%nat])
  /\ exists s' r,
      settle default_config refreshing_server 0
        (Throw (Error "Invalid current price payload from CoinGecko")) 5000
      = Some (s', [(1%nat, Return r); (2%nat, Return r)])
      /\ http_status r = 502
      /\ http_body r = ErrorBody "Invalid current price payload from CoinGecko".
Proof.
  split; [reflexivity|].
  destruct (failed_refresh_gives_502 default_config refreshing_server 0
              [1%nat; 2%nat]
              (Error "Invalid current price payload from CoinGecko") 5000
              eq_refl)
    as (s' & r & Hs & Hst & Hb & _).
  exists s', r. auto.
Defined.

(** ** The pipeline *)

Lemma ltb_zero_leb_false (x : number) :
  Num.ltb Num.zero x = true -> Num.leb x Num.zero = false.
Proof. unfold Num.zero. intros; order_cases. Qed.

Lemma leb_zero_false_ltb (x : number) :
  Num.is_nan x = false -> Num.leb x Num.zero = false ->
  Num.ltb Num.zero x = true.
Proof. unfold Num.zero. intros; order_cases. Qed.

Lemma get_prop_is_json v k x :
  is_json v = true -> get_prop v k = x -> x <> JSUndefined -> is_json x = true.
Proof.
  intros Hj <- Hne. destruct v; simpl in *; try congruence.
  destruct (find _ props) as [kv|] eqn:Hf; [|congruence].
  apply find_some in Hf as [Hin _].
  rewrite forallb_forall in Hj. now apply Hj.
Qed.

Lemma coinbaseHistorical_log t ts up log :
  coinbaseHistorical t ts up log
  = (log ++ [candleRequest t], snd (coinbaseHistorical t ts up [])).
Proof.
  unfold coinbaseHistorical, bind, fetch, await, throw, ret, candleRequest.
  simpl.
  destruct (up _) as [cbRes|e]; auto.
  destruct (negb (ok cbRes)); auto.
  destruct (json cbRes) as [[| | | | |cs|]|e]; auto.
  destruct (length cs =? 0)%nat; auto.
  destruct (pickClosestCandleClose cs _) as [close|]; auto.
  destruct (Num.leb close Num.zero); auto.
Qed.

(** Once the primary price [cp] has passed its guard, the rest of the run is
    the historical stage followed by the construction of the payload. *)
Lemma run_pipeline_primary cfg D now up cp :
  primary_price cfg up cp -> Num.leb cp Num.zero = false ->
  run_pipeline cfg D now up
  = (historicalPrice <-
       historicalStage cfg (twoYearsBefore D now)
         (twoYearsBefore D now / 1000) ;;
     ret (payload_of D (twoYearsBefore D now) cp historicalPrice))
      up [SimplePrice (baseUrl_of cfg) (headers_of cfg)].
Proof.
  intros (currentRes & currentJson & Hup & Hok & Hjson & Husd) Hpos.
  unfold run_pipeline, fetchFromCoinGecko.
  unfold bind at 1, fetch at 1. cbn [app]. rewrite Hup, Hok.
  cbn [negb]. cbv beta iota.
  unfold bind at 1, await at 1. now rewrite Hjson, Husd, Hpos.
Qed.

Lemma status_401_not_ok r : status r = 401 -> ok r = false.
Proof. unfold ok. now intros ->. Qed.

Lemma coingeckoHistorical_401 cfg t up log histRes :
  up (rangeRequest cfg t) = Return histRes -> status histRes = 401 ->
  coingeckoHistorical (baseUrl_of cfg) (headers_of cfg) t (t / 1000) up log
  = (log ++ [rangeRequest cfg t], Return None).
Proof.
  intros Hup H401. unfold coingeckoHistorical, bind, fetch.
  fold (rangeRequest cfg t). rewrite Hup, (status_401_not_ok _ H401), H401.
  reflexivity.
Qed.

Lemma coingeckoHistorical_fatal cfg t up log histRes :
  up (rangeRequest cfg t) = Return histRes ->
  ok histRes = false -> status histRes <> 401 ->
  coingeckoHistorical (baseUrl_of cfg) (headers_of cfg) t (t / 1000) up log
  = (log ++ [rangeRequest cfg t],
     Throw (Error ("CoinGecko historical price error: "
                   ++ status_line histRes))).
Proof.
  intros Hup Hok Hne. unfold coingeckoHistorical, bind, fetch.
  fold (rangeRequest cfg t). rewrite Hup, Hok.
  apply Z.eqb_neq in Hne. now rewrite Hne.
Qed.

(** C4.  Let an API key be configured, the primary price have passed its
    guard and the CoinGecko range query be answered by [histRes].  If the
    status is 401 the pipeline goes on: its third request is the Coinbase
    candle query, and the run ends as the candle stage ends (with the payload
    built from its close, or with its error).  If the status is any other
    non-success status, 500 for one, the run ends with the error [CoinGecko
    historical price error: <status> <text>] after two requests: the candle
    query is not made. *)
Theorem historical_status_handling cfg D now up cp histRes :
  truthy (COINGECKO_API_KEY cfg) = true ->
  primary_price cfg up cp ->
  Num.leb cp Num.zero = false ->
  up (rangeRequest cfg (twoYearsBefore D now)) = Return histRes ->
  let t := twoYearsBefore D now in
  let primary := SimplePrice (baseUrl_of cfg) (headers_of cfg) in
  (status histRes = 401 ->
     run_pipeline cfg D now up
     = ([primary; rangeRequest cfg t; candleRequest t],
        match snd (coinbaseHistorical t (t / 1000) up []) with
        | Return close => Return (payload_of D t cp close)
        | Throw e => Throw e
        end))
  /\ (ok histRes = false -> status histRes <> 401 ->
     run_pipeline cfg D now up
     = ([primary; rangeRequest cfg t],
        Throw (Error ("CoinGecko historical price error: "
                      ++ status_line histRes)))
     /\ ~ In (candleRequest t) (fst (run_pipeline cfg D now up))).
Proof.
  intros Hkey Hprimary Hpos Hup t primary.
  rewrite (run_pipeline_primary cfg D now up cp Hprimary Hpos).
  fold t primary. unfold historicalStage. rewrite Hkey. split.
  - intros H401. unfold bind at 1 2.
    rewrite (coingeckoHistorical_401 cfg t up _ histRes Hup H401).
    rewrite coinbaseHistorical_log. simpl.
    now destruct (snd (coinbaseHistorical t (t / 1000) up [])).
  - intros Hok Hne.
    match goal with |- ?run = ?res /\ _ => assert (Hrun : run = res) end.
    { unfold bind at 1 2.
      now rewrite (coingeckoHistorical_fatal cfg t up _ histRes Hup Hok Hne). }
    rewrite Hrun. split; [reflexivity|].
    unfold primary, rangeRequest, candleRequest. simpl.
    intros [H | [H | []]]; discriminate.
Qed.

Lemma historical_status_handling_witness :
  let now := 1700000000000 in
  let t := twoYearsBefore UTC.date now in
  let usd := Num.dec 650007 10 in
  let close := Num.of_Z 29000 in
  let primary :=
    SimplePrice "https://api.coingecko.com/api/v3" (Some "demo-key"%string) in
  primary_price keyed_config (sample_upstream usd 401 close) usd
  /\ run_pipeline keyed_config UTC.date now (sample_upstream usd 401 close)
     = ([primary; rangeRequest keyed_config t; candleRequest t],
        Return (payload_of UTC.date t usd close))
  /\ run_pipeline keyed_config UTC.date now (sample_upstream usd 500 close)
     = ([primary; rangeRequest keyed_config t],
        Throw (Error "CoinGecko historical price error: 500 Error")).
Proof.
  intros now t usd close primary.
  assert (Hp : forall st,
            primary_price keyed_config (sample_upstream usd st close) usd).
  { intros st. eexists _, _. repeat split. }
  split; [apply Hp|]. split.
  - apply (historical_status_handling keyed_config UTC.date now
             (sample_upstream usd 401 close) usd
             {| status := 401; statusText := "Error"; json := Return JSNull |}
             eq_refl (Hp 401) eq_refl eq_refl).
    reflexivity.
  - apply (historical_status_handling keyed_config UTC.date now
             (sample_upstream usd 500 close) usd
             {| status := 500; statusText := "Error"; json := Return JSNull |}
             eq_refl (Hp 500) eq_refl eq_refl).
    + reflexivity.
    + discriminate.
Defined.

(** ** The candle fallback *)

Lemma candle_candidate_json c ts close :
  is_json c = true -> candle_candidate c = Some (ts, close) ->
  Num.is_nan close = false.
Proof.
  intros Hj Hc. destruct c as [| | | | |elems|]; try discriminate.
  destruct elems as [|[] [|b [|c [|d [|[] r]]]]]; try discriminate.
  injection Hc as <- <-. simpl in Hj.
  rewrite !andb_true_iff in Hj. destruct Hj as (_ & _ & _ & _ & Hclose & _).
  now apply negb_true_iff in Hclose.
Qed.

Lemma price_candidate_json c ts price :
  is_json c = true -> price_candidate c = Some (ts, price) ->
  Num.is_nan price = false.
Proof.
  intros Hj Hc. destruct c as [| | | | |elems|]; try discriminate.
  destruct elems as [|[] [|[] r]]; try discriminate.
  injection Hc as <- <-. simpl in Hj.
  rewrite !andb_true_iff in Hj. destruct Hj as (_ & Hprice & _).
  now apply negb_true_iff in Hprice.
Qed.

Lemma pickClosestCandleClose_json candles t close :
  is_json (JSArray candles) = true ->
  pickClosestCandleClose candles t = Some close ->
  Num.is_nan close = false.
Proof.
  intros Hj Hpick. apply pickClosestCandleClose_spec in Hpick.
  destruct Hpick as (i & d & (entry & ts & Hn & Hc & _) & _).
  apply nth_error_In in Hn. simpl in Hj. rewrite forallb_forall in Hj.
  eauto using candle_candidate_json.
Qed.

Lemma coinbaseHistorical_success t up cbRes candles close :
  up (candleRequest t) = Return cbRes -> ok cbRes = true ->
  json cbRes = Return (JSArray candles) ->
  pickClosestCandleClose candles (Num.of_Z (t / 1000)) = Some close ->
  Num.leb close Num.zero = false ->
  snd (coinbaseHistorical t (t / 1000) up []) = Return close.
Proof.
  intros Hup Hok Hjson Hpick Hpos.
  unfold coinbaseHistorical, bind, fetch, await.
  fold (candleRequest t). rewrite Hup, Hok, Hjson. simpl.
  destruct candles as [|c candles]; [discriminate|].
  cbn [length Nat.eqb]. now rewrite Hpick, Hpos.
Qed.

Lemma coinbaseHistorical_failure t up cbRes body :
  up (candleRequest t) = Return cbRes -> ok cbRes = true ->
  json cbRes = Return body -> is_json body = true ->
  (forall candles close,
      body = JSArray candles ->
      pickClosestCandleClose candles (Num.of_Z (t / 1000)) = Some close ->
      ~ is_positive close) ->
  exists msg, snd (coinbaseHistorical t (t / 1000) up []) = Throw (Error msg).
Proof.
  intros Hup Hok Hjson Hj Hnone.
  unfold coinbaseHistorical, bind, fetch, await.
  fold (candleRequest t). rewrite Hup, Hok, Hjson. simpl.
  destruct body as [| | | | |candles|]; try (eexists; reflexivity).
  destruct (length candles =? 0)%nat; [eexists; reflexivity|].
  destruct (pickClosestCandleClose candles _) as [close|] eqn:Hpick;
    [|eexists; reflexivity].
  destruct (Num.leb close Num.zero) eqn:Hle; [eexists; reflexivity|].
  exfalso. apply (Hnone candles close eq_refl Hpick).
  apply leb_zero_false_ltb; eauto using pickClosestCandleClose_json.
Qed.

Lemma coinbaseHistorical_Return t up log log' close :
  coinbaseHistorical t (t / 1000) up log = (log', Return close) ->
  Num.leb close Num.zero = false
  /\ exists cbRes candles,
      up (candleRequest t) = Return cbRes
      /\ json cbRes = Return (JSArray candles)
      /\ pickClosestCandleClose candles (Num.of_Z (t / 1000)) = Some close.
Proof.
  unfold coinbaseHistorical, bind, fetch, await, ret, throw.
  fold (candleRequest t).
  destruct (up (candleRequest t)) as [cbRes|e]; [|discriminate].
  destruct (negb (ok cbRes)); [discriminate|].
  destruct (json cbRes) as [[| | | | |candles|]|e] eqn:Hjson; try discriminate.
  destruct (length candles =? 0)%nat; [discriminate|].
  destruct (pickClosestCandleClose candles _) as [c|] eqn:Hpick;
    [|discriminate].
  destruct (Num.leb c Num.zero) eqn:Hle; [discriminate|].
  intros H. injection H as _ <-. eauto 10.
Qed.

(** C5, as amended.  Let the primary price have passed its guard and the
    CoinGecko stage (skipped without an API key) have ended without a
    positive historical price.  Then the next and last request of the run is
    the Coinbase candle query with granularity 86400 over the 14 days that
    start at the target instant, the window of the range query to the
    second.  If Coinbase answers with a list, and the first candle of
    minimal absolute time difference to the target second, among the
    well-formed candles whose difference is below Infinity, has a positive
    close, the payload carries that close, rounded, as [historicalPriceUsd];
    a run that returns a payload took its historical price from that very
    candle; and if the body is not a list, is empty, or that candle is
    missing or has no positive close, the run ends with a thrown [Error]. *)
Theorem candle_fallback cfg D now up cp log0 fromCoinGecko :
  primary_price cfg up cp ->
  Num.leb cp Num.zero = false ->
  (if truthy (COINGECKO_API_KEY cfg)
   then coingeckoHistorical (baseUrl_of cfg) (headers_of cfg)
          (twoYearsBefore D now) (twoYearsBefore D now / 1000)
   else ret None) up [SimplePrice (baseUrl_of cfg) (headers_of cfg)]
  = (log0, Return fromCoinGecko) ->
  positive_number fromCoinGecko = false ->
  let t := twoYearsBefore D now in
  let nearest := first_closest candle_candidate (Num.of_Z (t / 1000)) in
  fst (run_pipeline cfg D now up) = log0 ++ [candleRequest t]
  /\ candleRequest t = CoinbaseCandles 86400 t (t + 14 * 86400 * 1000)
  /\ rangeRequest cfg t
     = MarketChartRange (baseUrl_of cfg) (headers_of cfg)
         (t / 1000) (t / 1000 + 14 * 86400)
  /\ (forall cbRes candles close,
        up (candleRequest t) = Return cbRes -> ok cbRes = true ->
        json cbRes = Return (JSArray candles) ->
        nearest candles close ->
        is_positive close ->
        snd (run_pipeline cfg D now up) = Return (payload_of D t cp close)
        /\ historicalPriceUsd (payload_of D t cp close) = Num.Math_round close)
  /\ (forall p,
        snd (run_pipeline cfg D now up) = Return p ->
        exists cbRes candles close,
          up (candleRequest t) = Return cbRes
          /\ json cbRes = Return (JSArray candles)
          /\ nearest candles close
          /\ Num.leb close Num.zero = false
          /\ p = payload_of D t cp close)
  /\ (forall cbRes body,
        up (candleRequest t) = Return cbRes -> ok cbRes = true ->
        json cbRes = Return body -> is_json body = true ->
        (forall candles close,
            body = JSArray candles -> nearest candles close ->
            ~ is_positive close) ->
        exists msg, snd (run_pipeline cfg D now up) = Throw (Error msg)).
Proof.
  intros Hprimary Hpos Hstage Hnone t nearest.
  assert (Hrun : run_pipeline cfg D now up
                 = (log0 ++ [candleRequest t],
                    match snd (coinbaseHistorical t (t / 1000) up []) with
                    | Return close => Return (payload_of D t cp close)
                    | Throw e => Throw e
                    end)).
  { rewrite (run_pipeline_primary cfg D now up cp Hprimary Hpos).
    fold t. unfold historicalStage. unfold bind at 1 2. fold t in Hstage.
    rewrite Hstage.
    assert (Hfall : match fromCoinGecko with
                    | Some h => if Num.leb h Num.zero
                                then coinbaseHistorical t (t / 1000) else ret h
                    | None => coinbaseHistorical t (t / 1000)
                    end = coinbaseHistorical t (t / 1000)).
    { destruct fromCoinGecko as [h|]; auto. simpl in Hnone.
      apply negb_false_iff in Hnone. now rewrite Hnone. }
    rewrite Hfall, coinbaseHistorical_log.
    now destruct (snd (coinbaseHistorical t (t / 1000) up [])). }
  rewrite Hrun. cbn [fst snd].
  split; [reflexivity|]. split; [reflexivity|]. split; [reflexivity|].
  split; [|split].
  - intros cbRes candles close Hup Hok Hjson Hnear Hclose.
    apply pickClosestCandleClose_spec in Hnear.
    rewrite (coinbaseHistorical_success t up cbRes candles close);
      auto using ltb_zero_leb_false.
  - intros p Hp.
    destruct (coinbaseHistorical t (t / 1000) up [])
      as [log' [close|e]] eqn:Hcb; cbn [snd] in Hp; [|discriminate].
    injection Hp as <-.
    apply coinbaseHistorical_Return in Hcb
      as (Hle & cbRes & candles & Hup & Hjson & Hpick).
    apply pickClosestCandleClose_spec in Hpick.
    exists cbRes, candles, close. auto.
  - intros cbRes body Hup Hok Hjson Hj Hno.
    destruct (coinbaseHistorical_failure t up cbRes body Hup Hok Hjson Hj)
      as [msg ->]; [|now exists msg].
    intros candles close Hbody Hpick. apply (Hno candles close Hbody).
    now apply pickClosestCandleClose_spec.
Qed.

Lemma candle_fallback_witness :
  let now := 1700000000000 in
  let t := twoYearsBefore UTC.date now in
  let usd := Num.dec 650007 10 in
  let up := candles_upstream usd (daily_candles (t / 1000)) in
  primary_price default_config up usd
  /\ first_closest candle_candidate (Num.of_Z (t / 1000))
       (daily_candles (t / 1000)) (Num.of_Z 29000)
  /\ fst (run_pipeline default_config UTC.date now up)
     = [SimplePrice "https://api.coingecko.com/api/v3" None; candleRequest t]
  /\ snd (run_pipeline default_config UTC.date now up)
     = Return {| currentPriceUsd := Num.of_Z 65001;
                 historicalPriceUsd := Num.of_Z 29000;
                 historicalTargetDate := "2021-11-14T22:13:20.000Z" |}.
Proof.
  intros now t usd up.
  assert (Hp : primary_price default_config up usd).
  { eexists _, _. repeat split. }
  assert (Hnear : first_closest candle_candidate (Num.of_Z (t / 1000))
                    (daily_candles (t / 1000)) (Num.of_Z 29000)).
  { apply pickClosestCandleClose_spec. vm_compute. reflexivity. }
  split; [exact Hp|]. split; [exact Hnear|].
  destruct (candle_fallback default_config UTC.date now up usd
              [SimplePrice "https://api.coingecko.com/api/v3" None] None
              Hp eq_refl eq_refl eq_refl)
    as (Hlog & _ & _ & Hok & _).
  split; [exact Hlog|].
  destruct (Hok {| status := 200; statusText := "OK";
                   json := Return (JSArray (daily_candles (t / 1000))) |}
               (daily_candles (t / 1000)) (Num.of_Z 29000)
               eq_refl eq_refl eq_refl Hnear eq_refl) as [Hrun _].
  exact Hrun.
Defined.

(** C5, as stated, fails: Coinbase answers [[1e999, 0, 0, 0, 5, 0]], a
    list whose only candle is the nearest of all its candles and closes at
    5, a positive number; the run does not use that close but ends with
    [Unable to determine historical price from Coinbase candles payload]. *)
Lemma candle_fallback_overflowing_candle :
  let now := 1700000000000 in
  let t := twoYearsBefore UTC.date now in
  let up := candles_upstream (Num.dec 650007 10) [overflowing_candle] in
  first_closest_of_all candle_candidate (Num.of_Z (t / 1000))
    [overflowing_candle] (Num.of_Z 5)
  /\ is_positive (Num.of_Z 5)
  /\ is_json (JSArray [overflowing_candle]) = true
  /\ run_pipeline default_config UTC.date now up
     = ([SimplePrice "https://api.coingecko.com/api/v3" None; candleRequest t],
        Throw (Error undetermined)).
Proof.
  intros now t up. split; [|split; [|split]]; try (vm_compute; reflexivity).
  exists 0%nat, Num.Infinity. split.
  - exists overflowing_candle, Num.Infinity. repeat split.
  - intros j v' d' (entry & ts & Hn & _). destruct j as [|j].
    + split; intros; lia.
    + destruct j; discriminate.
Qed.


(** ** The payload of a successful run *)

Lemma coingeckoHistorical_Some cfg t up log log' h :
  coingeckoHistorical (baseUrl_of cfg) (headers_of cfg) t (t / 1000) up log
  = (log', Return (Some h)) ->
  exists histRes histJson prices,
    up (rangeRequest cfg t) = Return histRes
    /\ json histRes = Return histJson
    /\ get_prop histJson "prices" = JSArray prices
    /\ pickClosestPrice prices (Num.of_Z t) = Some h.
Proof.
  unfold coingeckoHistorical, bind, fetch, await, ret, throw.
  fold (rangeRequest cfg t).
  destruct (up (rangeRequest cfg t)) as [histRes|e]; [|discriminate].
  destruct (ok histRes).
  - destruct (json histRes) as [histJson|e] eqn:Hjson; [|discriminate].
    destruct (get_prop histJson "prices") as [| | | | |prices|] eqn:Hprices;
      try discriminate.
    destruct (0 <? length prices)%nat; [|discriminate].
    intros H. injection H as _ H. eauto 10.
  - destruct (negb (status histRes =? 401)); discriminate.
Qed.

Lemma historicalStage_Return cfg t up log log' hp :
  historicalStage cfg t (t / 1000) up log = (log', Return hp) ->
  Num.leb hp Num.zero = false /\ fetched_historical cfg up t hp.
Proof.
  unfold historicalStage. unfold bind at 1.
  assert (Hcb : forall l, coinbaseHistorical t (t / 1000) up l
                          = (log', Return hp) ->
                Num.leb hp Num.zero = false /\ fetched_historical cfg up t hp).
  { intros l H. apply coinbaseHistorical_Return in H as [Hpos H].
    split; [exact Hpos|]. now right. }
  destruct (truthy (COINGECKO_API_KEY cfg)); [|now apply Hcb].
  destruct (coingeckoHistorical _ _ _ _ up log)
    as [log1 [[h|]|e]] eqn:Hstage; try discriminate; [|now apply Hcb].
  destruct (Num.leb h Num.zero) eqn:Hle; [now apply Hcb|].
  intros H. injection H as _ <-. split; [exact Hle|]. left.
  eauto using coingeckoHistorical_Some.
Qed.

Lemma run_pipeline_Return cfg D now up log p :
  run_pipeline cfg D now up = (log, Return p) ->
  exists cp hp,
    primary_price cfg up cp
    /\ Num.leb cp Num.zero = false
    /\ fetched_historical cfg up (twoYearsBefore D now) hp
    /\ Num.leb hp Num.zero = false
    /\ p = payload_of D (twoYearsBefore D now) cp hp.
Proof.
  unfold run_pipeline, fetchFromCoinGecko.
  unfold bind at 1, fetch at 1.
  destruct (up (SimplePrice _ _)) as [currentRes|e] eqn:Hup; [|discriminate].
  destruct (ok currentRes) eqn:Hok; [|discriminate]. cbn [negb].
  unfold bind at 1, await at 1.
  destruct (json currentRes) as [currentJson|e] eqn:Hjson; [|discriminate].
  destruct (get_prop (get_prop currentJson "bitcoin") "usd")
    as [| | |cp| | |] eqn:Husd; try discriminate.
  destruct (Num.leb cp Num.zero) eqn:Hpos; [discriminate|].
  cbv zeta. unfold bind at 1.
  destruct (historicalStage cfg _ _ up _) as [log1 [hp|e]] eqn:Hstage;
    [|discriminate].
  intros H. injection H as _ <-.
  apply historicalStage_Return in Hstage as [Hhp Hfetched].
  exists cp, hp. unfold primary_price. eauto 10.
Qed.

(** C6.  The payload of a successful run holds [Math.round] of the two
    fetched prices (the primary [bitcoin.usd], and the value selected from
    the range response or from the candles) and the ISO-8601 string of the
    target instant, two calendar years before the clock reading.  For a
    fetched price in the canonical form of the format, the rounded field is
    an integral number, the integer nearest to the price (the greater on a
    tie).  The literal 65000.7 rounds to 65001. *)
Theorem payload_is_rounded cfg D now up log p :
  run_pipeline cfg D now up = (log, Return p) ->
  exists cp hp,
    primary_price cfg up cp
    /\ fetched_historical cfg up (twoYearsBefore D now) hp
    /\ currentPriceUsd p = Num.Math_round cp
    /\ historicalPriceUsd p = Num.Math_round hp
    /\ historicalTargetDate p = toISOString D (twoYearsBefore D now)
    /\ (Num.valid cp = true -> Num.rounded cp (currentPriceUsd p))
    /\ (Num.valid hp = true -> Num.rounded hp (historicalPriceUsd p))
    /\ Num.Math_round (Num.dec 650007 10) = Num.of_Z 65001
    /\ Num.to_Z (Num.of_Z 65001) = Some 65001.
Proof.
  intros Hrun.
  destruct (run_pipeline_Return cfg D now up log p Hrun)
    as (cp & hp & Hcp & _ & Hhp & _ & ->).
  exists cp, hp. simpl.
  repeat split; auto using NumRound.Math_round_rounded.
Qed.

Lemma payload_is_rounded_witness :
  let now := 1700000000000 in
  let up := sample_upstream (Num.dec 650007 10) 401 (Num.dec 290004 10) in
  run_pipeline keyed_config UTC.date now up
  = ([SimplePrice "https://api.coingecko.com/api/v3" (Some "demo-key"%string);
      rangeRequest keyed_config (twoYearsBefore UTC.date now);
      candleRequest (twoYearsBefore UTC.date now)],
     Return {| currentPriceUsd := Num.of_Z 65001;
               historicalPriceUsd := Num.of_Z 29000;
               historicalTargetDate := "2021-11-14T22:13:20.000Z" |})
  /\ exists cp hp,
      primary_price keyed_config up cp
      /\ Num.of_Z 65001 = Num.Math_round cp
      /\ Num.of_Z 29000 = Num.Math_round hp.
Proof.
  intros now up.
  assert (Hrun : run_pipeline keyed_config UTC.date now up
    = ([SimplePrice "https://api.coingecko.com/api/v3" (Some "demo-key"%string);
        rangeRequest keyed_config (twoYearsBefore UTC.date now);
        candleRequest (twoYearsBefore UTC.date now)],
       Return {| currentPriceUsd := Num.of_Z 65001;
                 historicalPriceUsd := Num.of_Z 29000;
                 historicalTargetDate := "2021-11-14T22:13:20.000Z" |}))
    by reflexivity.
  split; [exact Hrun|].
  destruct (payload_is_rounded keyed_config UTC.date now up _ _ Hrun)
    as (cp & hp & Hcp & _ & Hc & Hh & _).
  exists cp, hp. auto.
Defined.

(** ** Prices below one half *)

(** The guard on the primary price: a response whose body is JSON without a
    positive [bitcoin.usd] ends the run, after its one request, with the
    error [Invalid current price payload from CoinGecko]. *)
Lemma invalid_primary_price_fails cfg D now up currentRes body :
  up (SimplePrice (baseUrl_of cfg) (headers_of cfg)) = Return currentRes ->
  ok currentRes = true ->
  json currentRes = Return body ->
  is_json body = true ->
  (forall cp, get_prop (get_prop body "bitcoin") "usd" = JSNumber cp ->
              ~ is_positive cp) ->
  run_pipeline cfg D now up
  = ([SimplePrice (baseUrl_of cfg) (headers_of cfg)],
     Throw (Error "Invalid current price payload from CoinGecko")).
Proof.
  intros Hup Hok Hjson Hj Hno.
  unfold run_pipeline, fetchFromCoinGecko.
  unfold bind at 1, fetch at 1. cbn [app]. rewrite Hup, Hok. cbn [negb].
  unfold bind at 1, await at 1. rewrite Hjson.
  destruct (get_prop (get_prop body "bitcoin") "usd")
    as [| | |cp| | |] eqn:Husd; try reflexivity.
  destruct (Num.leb cp Num.zero) eqn:Hle; [reflexivity|].
  exfalso. apply (Hno cp eq_refl). apply leb_zero_false_ltb; [|exact Hle].
  assert (Hj2 : is_json (get_prop body "bitcoin") = true).
  { apply (get_prop_is_json body "bitcoin" _ Hj eq_refl).
    intros Hu. rewrite Hu in Husd. discriminate. }
  pose proof (get_prop_is_json _ "usd" _ Hj2 Husd ltac:(discriminate)) as Hj3.
  now apply negb_true_iff in Hj3.
Qed.

(** A primary failure status, or a body that is not JSON, ends the run with
    the corresponding error. *)
Lemma malformed_primary_fails cfg D now up currentRes :
  up (SimplePrice (baseUrl_of cfg) (headers_of cfg)) = Return currentRes ->
  (ok currentRes = false ->
     run_pipeline cfg D now up
     = ([SimplePrice (baseUrl_of cfg) (headers_of cfg)],
        Throw (Error ("CoinGecko current price error: "
                      ++ status_line currentRes))))
  /\ (forall e, ok currentRes = true -> json currentRes = Throw e ->
     run_pipeline cfg D now up
     = ([SimplePrice (baseUrl_of cfg) (headers_of cfg)], Throw e)).
Proof.
  intros Hup. split.
  - intros Hok. unfold run_pipeline, fetchFromCoinGecko.
    unfold bind at 1, fetch at 1. cbn [app]. now rewrite Hup, Hok.
  - intros e Hok Hjson. unfold run_pipeline, fetchFromCoinGecko.
    unfold bind at 1, fetch at 1. cbn [app]. rewrite Hup, Hok. cbn [negb].
    unfold bind at 1, await at 1. now rewrite Hjson.
Qed.

(** C9, at the input where the code departs from it: the primary answers
    [{"bitcoin":{"usd":0.3}}] and the nearest candle closes at 0.4.  Both
    prices are positive and pass the guards, the run succeeds, and both
    fields of the payload are the integer 0. *)
Theorem tiny_prices_round_to_zero :
  let up := sample_upstream (Num.dec 3 10) 401 (Num.dec 4 10) in
  is_positive (Num.dec 3 10)
  /\ is_positive (Num.dec 4 10)
  /\ run_pipeline default_config UTC.date 1700000000000 up
     = ([SimplePrice "https://api.coingecko.com/api/v3" None;
         candleRequest (twoYearsBefore UTC.date 1700000000000)],
        Return {| currentPriceUsd := Num.zero;
                  historicalPriceUsd := Num.zero;
                  historicalTargetDate := "2021-11-14T22:13:20.000Z" |})
  /\ Num.to_Z Num.zero = Some 0.
Proof. repeat split. Qed.

(** ** The service on a concrete run *)

(** Two calendar years before 15 March 2024 is 15 March 2022, which is 731
    days earlier; two years before 29 February 2024 is 1 March 2022. *)
Example twoYearsBefore_calendar :
  let t := UTC.days_from_civil 2024 3 15 * UTC.msPerDay + 43200123 in
  toISOString UTC.date t = "2024-03-15T12:00:00.123Z"%string
  /\ toISOString UTC.date (twoYearsBefore UTC.date t)
     = "2022-03-15T12:00:00.123Z"%string
  /\ twoYearsBefore UTC.date t = t - 731 * UTC.msPerDay
  /\ toISOString UTC.date (twoYearsBefore UTC.date 1709164800000)
     = "2022-03-01T00:00:00.000Z"%string.
Proof. repeat split; vm_compute; reflexivity. Qed.

(** Two callers arrive on an empty cache, the one refresh they share ends
    with a payload, and a third caller, 899 seconds later, is served from the
    cache: three requests went upstream in all. *)
Example two_callers_one_refresh :
  let t := 1700000000000 in
  let up := sample_upstream (Num.dec 650007 10) 401 (Num.dec 290004 10) in
  let fetched :=
    {| currentPriceUsd := Num.of_Z 65001;
       historicalPriceUsd := Num.of_Z 29000;
       historicalTargetDate := "2021-11-14T22:13:20.120Z" |} in
  length (fst (run_pipeline keyed_config UTC.date (t + 120) up)) = 3%nat
  /\ run keyed_config initial
       [Call 1%nat t; Call 2%nat (t + 40);
        Refresh keyed_config UTC.date 0 (t + 120) up (t + 350);
        Call 3%nat (t + 350 + 899000)]
     = Some ({| cachedValue :=
                  Some {| payload := fetched; cachedAtMs := t + 350 |};
                inFlight := None;
                promises := [Settled (Return fetched)] |},
             [(1%nat, Return (okJson keyed_config fetched "MISS"));
              (2%nat, Return (okJson keyed_config fetched "MISS"));
              (3%nat, Return (okJson keyed_config fetched "HIT"))]).
Proof. split; vm_compute; reflexivity. Qed.

(** ** Further properties of the cache and of the refresh in flight *)

Lemma waiting_add_waiter l p ws c :
  nth_error l p = Some (Pending ws) ->
  Permutation (flat_map waiters_of (set_nth p (Pending (ws ++ [c])) l))
              (c :: flat_map waiters_of l).
Proof.
  revert p. induction l as [|a l IH]; intros [|p] H; simpl in *;
    try discriminate.
  - injection H as ->. simpl. rewrite <- app_assoc. simpl.
    apply Permutation_sym, Permutation_middle.
  - rewrite (IH p H). apply Permutation_sym, Permutation_middle.
Qed.

Lemma waiting_settle l p ws o :
  nth_error l p = Some (Pending ws) ->
  Permutation (ws ++ flat_map waiters_of (set_nth p (Settled o) l))
              (flat_map waiters_of l).
Proof.
  revert p. induction l as [|a l IH]; intros [|p] H; simpl in *;
    try discriminate.
  - now injection H as ->.
  - rewrite <- (IH p H). rewrite !app_assoc.
    apply Permutation_app_tail, Permutation_app_comm.
Qed.

Lemma GET_call_callers cfg s c now :
  coherent s ->
  Permutation (map fst (snd (GET_call cfg s c now))
               ++ waiting (fst (GET_call cfg s c now)))
              (c :: waiting s).
Proof.
  intros [Hin _]. unfold GET_call.
  destruct (fresh cfg s now); [reflexivity|].
  destruct (inFlight s) as [p|] eqn:Hp.
  - destruct (Hin p eq_refl) as [ws Hws]. unfold await_promise. rewrite Hws.
    simpl. now apply waiting_add_waiter.
  - unfold await_promise. simpl. rewrite nth_error_last, set_nth_last. simpl.
    unfold waiting. simpl. rewrite flat_map_app. simpl.
    apply Permutation_sym, Permutation_cons_append.
Qed.

Lemma settle_callers cfg s p outcome now s' out :
  settle cfg s p outcome now = Some (s', out) ->
  Permutation (map fst out ++ waiting s') (waiting s).
Proof.
  unfold settle.
  destruct (nth_error (promises s) p) as [[ws|o]|] eqn:Hp; try discriminate.
  intros H. injection H as <- <-. rewrite map_map. simpl. rewrite map_id.
  now apply waiting_settle.
Qed.

Lemma run_callers cfg evs : forall s s' out,
  coherent s -> run cfg s evs = Some (s', out) ->
  Permutation (map fst out ++ waiting s') (waiting s ++ callers evs).
Proof.
  induction evs as [|ev evs IH]; intros s s' out Hco Hrun; simpl in Hrun.
  - injection Hrun as <- <-. simpl. now rewrite app_nil_r.
  - destruct (step cfg s ev) as [[s1 out1]|] eqn:Hstep; try discriminate.
    destruct (run cfg s1 evs) as [[s2 out2]|] eqn:Hrest; try discriminate.
    injection Hrun as <- <-.
    pose proof (step_coherent cfg s ev s1 out1 Hco Hstep) as Hco1.
    pose proof (IH s1 s2 out2 Hco1 Hrest) as Hperm.
    rewrite map_app, <- app_assoc, Hperm, app_assoc.
    assert (H1 : Permutation (map fst out1 ++ waiting s1)
                   (waiting s ++ callers [ev])).
    { destruct ev as [c now | p outcome now]; simpl in *.
      - injection Hstep as Hstep.
        pose proof (GET_call_callers cfg s c now Hco) as H.
        rewrite Hstep in H. simpl in H. rewrite H.
        apply Permutation_cons_append.
      - rewrite app_nil_r. eauto using settle_callers. }
    rewrite H1, <- app_assoc. unfold callers. simpl. now rewrite app_nil_r.
Qed.

Lemma GET_call_returns cfg s c now c' r :
  coherent s -> In (c', r) (snd (GET_call cfg s c now)) ->
  exists resp, r = Return resp.
Proof.
  intros [Hin _]. unfold GET_call.
  destruct (fresh cfg s now).
  - intros [H | []]. injection H as _ <-. eauto.
  - unfold await_promise.
    destruct (inFlight s) as [p|] eqn:Hp.
    + destruct (Hin p eq_refl) as [ws ->]. intros [].
    + simpl. rewrite nth_error_last. intros [].
Qed.

Lemma settle_returns cfg s p outcome now s' out c r :
  settle cfg s p outcome now = Some (s', out) -> In (c, r) out ->
  exists resp, r = Return resp.
Proof.
  unfold settle.
  destruct (nth_error (promises s) p) as [[ws|o]|]; try discriminate.
  intros H. injection H as _ <-. intros Hin.
  apply in_map_iff in Hin as (c0 & H & _). injection H as _ <-.
  apply GET_resume_returns.
Qed.

Lemma run_returns cfg evs : forall s s' out c r,
  coherent s -> run cfg s evs = Some (s', out) -> In (c, r) out ->
  exists resp, r = Return resp.
Proof.
  induction evs as [|ev evs IH]; intros s s' out c r Hco Hrun Hin;
    simpl in Hrun.
  - injection Hrun as _ <-. destruct Hin.
  - destruct (step cfg s ev) as [[s1 out1]|] eqn:Hstep; try discriminate.
    destruct (run cfg s1 evs) as [[s2 out2]|] eqn:Hrest; try discriminate.
    injection Hrun as _ <-. apply in_app_or in Hin as [Hin | Hin].
    + destruct ev as [c0 now | p outcome now]; simpl in Hstep.
      * injection Hstep as Hstep.
        apply (GET_call_returns cfg s c0 now c r Hco).
        now rewrite Hstep.
      * eauto using settle_returns.
    + eauto using step_coherent.
Qed.

Lemma no_pending_no_waiter l :
  (forall p ws, nth_error l p = Some (Pending ws) -> False) ->
  flat_map waiters_of l = [].
Proof.
  induction l as [|a l IH]; intros H; simpl; auto.
  destruct a as [ws|o].
  - destruct (H 0%nat ws eq_refl).
  - simpl. apply IH. intros p ws Hp. apply (H (S p) ws Hp).
Qed.

(** X1.  No caller is lost or answered twice.  After any sequence of calls
    and settlements from the initial state, the callers that have been
    answered together with those still suspended are exactly the callers
    that invoked [GET]; when no refresh is in flight every caller has been
    answered; and every answer is a response, never a thrown error. *)
Theorem every_caller_answered_once cfg evs s out :
  run cfg initial evs = Some (s, out) ->
  Permutation (map fst out ++ waiting s) (callers evs)
  /\ (inFlight s = None -> Permutation (map fst out) (callers evs))
  /\ (forall c r, In (c, r) out -> exists resp, r = Return resp).
Proof.
  intros Hrun.
  pose proof (run_callers cfg evs initial s out initial_coherent Hrun) as Hp.
  simpl in Hp. split; [exact Hp|]. split.
  - intros Hidle.
    assert (Hco : coherent s) by eauto using run_coherent, initial_coherent.
    destruct Hco as [_ Hpend].
    assert (Hnone : waiting s = []).
    { apply no_pending_no_waiter. intros p ws Hp'.
      apply Hpend in Hp'. congruence. }
    now rewrite Hnone, app_nil_r in Hp.
  - intros c r. eapply run_returns; eauto using initial_coherent.
Qed.

Lemma every_caller_answered_once_witness :
  exists s out,
    run default_config initial (sample_events 1700000000000) = Some (s, out)
    /\ Permutation (map fst out) [1; 2; 3; 4]%nat.
Proof.
  destruct (run default_config initial (sample_events 1700000000000))
    as [[s out]|] eqn:Hrun; [|vm_compute in Hrun; discriminate].
  exists s, out. split; [reflexivity|].
  destruct (every_caller_answered_once default_config _ s out Hrun)
    as (_ & Hall & _).
  apply Hall. vm_compute in Hrun. injection Hrun as <- _. reflexivity.
Defined.

Lemma GET_call_executions cfg s c now :
  (executions s <= executions (fst (GET_call cfg s c now))
   <= S (executions s))%nat.
Proof.
  unfold GET_call, await_promise, executions.
  destruct (fresh cfg s now); simpl; [lia|].
  destruct (inFlight s) as [p|]; simpl.
  - destruct (nth_error (promises s) p) as [[ws|o]|]; simpl;
      rewrite ?set_nth_length; lia.
  - rewrite nth_error_last. simpl. rewrite set_nth_length, length_app.
    simpl. lia.
Qed.

Lemma run_executions cfg evs : forall s s' out,
  run cfg s evs = Some (s', out) ->
  (executions s <= executions s' <= executions s + length (callers evs))%nat.
Proof.
  induction evs as [|ev evs IH]; intros s s' out Hrun; simpl in Hrun.
  - injection Hrun as <- _. simpl. lia.
  - destruct (step cfg s ev) as [[s1 out1]|] eqn:Hstep; try discriminate.
    destruct (run cfg s1 evs) as [[s2 out2]|] eqn:Hrest; try discriminate.
    injection Hrun as <- _. specialize (IH _ _ _ Hrest).
    unfold callers in *. simpl. rewrite length_app.
    destruct ev as [c now | p outcome now]; simpl in *.
    + injection Hstep as Hstep.
      pose proof (GET_call_executions cfg s c now) as H.
      rewrite Hstep in H. simpl in H. lia.
    + unfold settle in Hstep.
      destruct (nth_error (promises s) p) as [[ws|o]|]; try discriminate.
      injection Hstep as <- _. unfold executions in *. simpl in IH.
      rewrite set_nth_length in IH. lia.
Qed.

(** X2.  At most one refresh is in flight.  In every state that calls and
    settlements lead to from the initial state, at most one promise of the
    store is pending, [inFlight] is null exactly when none is, and
    [fetchFromCoinGecko] has been called at most once per call of [GET]. *)
Theorem one_refresh_at_a_time cfg evs s out :
  run cfg initial evs = Some (s, out) ->
  (forall p q ws ws',
      nth_error (promises s) p = Some (Pending ws) ->
      nth_error (promises s) q = Some (Pending ws') -> p = q)
  /\ (inFlight s = None
      <-> forall p ws, nth_error (promises s) p <> Some (Pending ws))
  /\ (executions s <= length (callers evs))%nat.
Proof.
  intros Hrun.
  assert (Hco : coherent s) by eauto using run_coherent, initial_coherent.
  destruct Hco as [Hin Hpend]. split; [|split].
  - intros p q ws ws' Hp Hq. apply Hpend in Hp, Hq. congruence.
  - split.
    + intros Hidle p ws Hp. apply Hpend in Hp. congruence.
    + intros Hnone. destruct (inFlight s) as [p|] eqn:Hp; [|reflexivity].
      destruct (Hin p eq_refl) as [ws Hws]. now apply Hnone in Hws.
  - apply run_executions in Hrun. unfold executions in *. simpl in Hrun. lia.
Qed.

Lemma one_refresh_at_a_time_witness :
  exists s out,
    run default_config initial (sample_events 1700000000000) = Some (s, out)
    /\ (executions s <= 4)%nat.
Proof.
  destruct (run default_config initial (sample_events 1700000000000))
    as [[s out]|] eqn:Hrun; [|vm_compute in Hrun; discriminate].
  exists s, out. split; [reflexivity|].
  destruct (one_refresh_at_a_time default_config _ s out Hrun)
    as (_ & _ & Hle).
  exact Hle.
Defined.

(** ** Where responses and the cache come from *)

Lemma In_set_nth_other {A} (l : list A) p x y z :
  nth_error l p = Some y -> In x l -> x <> y -> In x (set_nth p z l).
Proof.
  revert p. induction l as [|a l IH]; intros [|p] Hp Hin Hne; simpl in *;
    try contradiction.
  - injection Hp as ->. destruct Hin as [-> | Hin]; [contradiction|].
    now right.
  - destruct Hin as [-> | Hin]; [now left|]. right. eauto.
Qed.

Lemma In_set_nth_new {A} (l : list A) p y z :
  nth_error l p = Some y -> In z (set_nth p z l).
Proof.
  revert p. induction l as [|a l IH]; intros [|p] Hp; simpl in *;
    try discriminate.
  - now left.
  - right. eauto.
Qed.

(** A settled promise stays in the store as it is. *)
Lemma step_keeps_settled cfg s ev s' out o :
  step cfg s ev = Some (s', out) ->
  In (Settled o) (promises s) -> In (Settled o) (promises s').
Proof.
  intros Hstep Hin. destruct ev as [c now | p outcome now]; simpl in Hstep.
  - injection Hstep as Hstep.
    replace s' with (fst (GET_call cfg s c now)) by now rewrite Hstep.
    unfold GET_call, await_promise.
    destruct (fresh cfg s now); [exact Hin|].
    destruct (inFlight s) as [p|]; simpl.
    + destruct (nth_error (promises s) p) as [[ws|o']|] eqn:Hp; simpl; auto.
      eapply In_set_nth_other; eauto. discriminate.
    + rewrite nth_error_last. simpl. rewrite set_nth_last.
      apply in_or_app. now left.
  - unfold settle in Hstep.
    destruct (nth_error (promises s) p) as [[ws|o']|] eqn:Hp;
      try discriminate.
    injection Hstep as <- _. simpl.
    eapply In_set_nth_other; eauto. discriminate.
Qed.

Lemma served_from_step cfg s ev s' out r :
  step cfg s ev = Some (s', out) ->
  served_from cfg s r -> served_from cfg s' r.
Proof.
  intros Hstep [(fetched & st & Hin & ->) | (e & Hin & ->)].
  - left. exists fetched, st. eauto using step_keeps_settled.
  - right. exists e. eauto using step_keeps_settled.
Qed.

Lemma served_from_resume cfg s outcome :
  In (Settled outcome) (promises s) ->
  served_from cfg s (GET_resume cfg outcome).
Proof.
  intros Hin. destruct outcome as [fetched|e].
  - left. now exists fetched, "MISS"%string.
  - right. now exists e.
Qed.

Lemma step_served cfg s ev s' out :
  cache_from_store s -> step cfg s ev = Some (s', out) ->
  cache_from_store s' /\ forall c r, In (c, r) out -> served_from cfg s' r.
Proof.
  intros Hcache Hstep.
  assert (Hkeep : forall o, In (Settled o) (promises s) ->
                            In (Settled o) (promises s'))
    by eauto using step_keeps_settled.
  destruct ev as [c now | p outcome now]; simpl in Hstep.
  - injection Hstep as Hstep. revert Hstep. unfold GET_call, fresh.
    destruct (cachedValue s) as [entry|] eqn:Hc.
    + destruct (Num.ltb _ _).
      * intros H. injection H as <- <-. split; [exact Hcache|].
        intros c' r [H | []]. injection H as _ <-. left.
        exists (payload entry), "HIT"%string. split; [|reflexivity].
        now apply Hcache.
      * unfold await_promise.
        destruct (inFlight s) as [p|]; simpl.
        -- destruct (nth_error (promises s) p) as [[ws|o]|] eqn:Hp;
             intros H; injection H as <- <-.
           ++ split; [|intros c' r []]. intros entry' Hc'. simpl in *.
              apply Hkeep. apply Hcache. congruence.
           ++ split; [exact Hcache|]. intros c' r [H | []].
              injection H as _ <-. apply served_from_resume.
              eauto using nth_error_In.
           ++ split; [exact Hcache|]. intros c' r [].
        -- rewrite nth_error_last. intros H. injection H as <- <-.
           split; [|intros c' r []]. intros entry' Hc'. simpl in *.
           rewrite set_nth_last. apply in_or_app. left. apply Hcache.
           congruence.
    + unfold await_promise.
      destruct (inFlight s) as [p|]; simpl.
      * destruct (nth_error (promises s) p) as [[ws|o]|] eqn:Hp;
          intros H; injection H as <- <-.
        -- split; [|intros c' r []]. intros entry' Hc'. simpl in *.
           congruence.
        -- split; [exact Hcache|]. intros c' r [H | []].
           injection H as _ <-. apply served_from_resume.
           eauto using nth_error_In.
        -- split; [exact Hcache|]. intros c' r [].
      * rewrite nth_error_last. intros H. injection H as <- <-.
        split; [|intros c' r []]. intros entry' Hc'. simpl in *. congruence.
  - pose proof Hstep as Hs. unfold settle in Hs.
    destruct (nth_error (promises s) p) as [[ws|o]|] eqn:Hp;
      try discriminate.
    injection Hs as <- <-.
    assert (Hnew : In (Settled outcome)
                      (set_nth p (Settled outcome) (promises s)))
      by eauto using In_set_nth_new.
    split.
    + intros entry Hentry. simpl in *. destruct outcome as [fetched|e].
      * now injection Hentry as <-.
      * eapply In_set_nth_other; eauto. discriminate.
    + intros c r Hin. apply in_map_iff in Hin as (c0 & H & _).
      injection H as _ <-. now apply served_from_resume.
Qed.

Lemma run_served cfg evs : forall s s' out,
  cache_from_store s -> run cfg s evs = Some (s', out) ->
  cache_from_store s' /\ forall c r, In (c, r) out -> served_from cfg s' r.
Proof.
  induction evs as [|ev evs IH]; intros s s' out Hcache Hrun; simpl in Hrun.
  - injection Hrun as <- <-. split; [exact Hcache|]. intros c r [].
  - destruct (step cfg s ev) as [[s1 out1]|] eqn:Hstep; try discriminate.
    destruct (run cfg s1 evs) as [[s2 out2]|] eqn:Hrest; try discriminate.
    injection Hrun as <- <-.
    destruct (step_served cfg s ev s1 out1 Hcache Hstep) as [Hc1 Hs1].
    destruct (IH s1 s2 out2 Hc1 Hrest) as [Hc2 Hs2].
    split; [exact Hc2|]. intros c r Hin.
    apply in_app_or in Hin as [Hin | Hin]; [|eauto].
    apply Hs1 in Hin. clear - Hin Hrest.
    revert s1 s2 out2 Hin Hrest.
    induction evs as [|ev' evs IH']; intros s1 s2 out2 Hin Hrest;
      simpl in Hrest.
    + now injection Hrest as <- _.
    + destruct (step cfg s1 ev') as [[s3 out3]|] eqn:Hstep';
        try discriminate.
      destruct (run cfg s3 evs) as [[s4 out4]|] eqn:Hrest';
        try discriminate.
      injection Hrest as <- _. eauto using served_from_step.
Qed.

(** X3.  Nothing is served or cached that a pipeline run did not produce.
    After any sequence of calls and settlements from the initial state, the
    cached payload is the payload of a refresh that settled successfully,
    and every response sent is either the 200 response of such a payload or
    the 502 response built from the error of a refresh that failed. *)
Theorem responses_come_from_refreshes cfg evs s out :
  run cfg initial evs = Some (s, out) ->
  cache_from_store s
  /\ forall c r, In (c, r) out -> served_from cfg s r.
Proof.
  apply run_served. intros entry H. discriminate.
Qed.

Lemma responses_come_from_refreshes_witness :
  exists s out,
    run default_config initial (sample_events 1700000000000) = Some (s, out)
    /\ cache_from_store s.
Proof.
  destruct (run default_config initial (sample_events 1700000000000))
    as [[s out]|] eqn:Hrun; [|vm_compute in Hrun; discriminate].
  exists s, out. split; [reflexivity|].
  exact (proj1 (responses_come_from_refreshes default_config _ s out Hrun)).
Defined.


(** ** Expiry of the cache *)


(** ** What the cache holds *)

Lemma GET_call_cache cfg s c now :
  cachedValue (fst (GET_call cfg s c now)) = cachedValue s.
Proof.
  unfold GET_call. destruct (fresh cfg s now); [reflexivity|].
  destruct (inFlight s); unfold await_promise;
    match goal with
    | |- context [nth_error ?l ?p] => destruct (nth_error l p) as [[ws|o]|]
    end; reflexivity.
Qed.

Lemma last_stored_Some evs : forall entry,
  exists entry', last_stored evs (Some entry) = Some entry'.
Proof.
  unfold last_stored.
  induction evs as [|[c now|p [fetched|e] now] evs IH]; intros entry; simpl;
    eauto.
Qed.

(** X15.  The cache holds the last success.  After any sequence of calls
    and settlements, [cachedValue] is the payload of the last refresh that
    settled successfully, stamped with the clock reading at that settlement,
    or what it was at the start when none did: calls and failed refreshes
    never write it, and once it holds an entry it is never empty again. *)
Theorem cache_holds_last_success cfg evs : forall s s' out,
  run cfg s evs = Some (s', out) ->
  cachedValue s' = last_stored evs (cachedValue s)
  /\ (forall entry, cachedValue s = Some entry ->
        exists entry', cachedValue s' = Some entry').
Proof.
  assert (Hlast : forall evs s s' out,
            run cfg s evs = Some (s', out) ->
            cachedValue s' = last_stored evs (cachedValue s)).
  { clear evs. induction evs as [|ev evs IH]; intros s s' out Hrun;
      simpl in Hrun.
    - now injection Hrun as <- _.
    - destruct (step cfg s ev) as [[s1 out1]|] eqn:Hstep; try discriminate.
      destruct (run cfg s1 evs) as [[s2 out2]|] eqn:Hrest; try discriminate.
      injection Hrun as <- _. rewrite (IH s1 s2 out2 Hrest).
      unfold last_stored. simpl. f_equal.
      destruct ev as [c now|p outcome now]; simpl in Hstep.
      + injection Hstep as Hstep.
        replace s1 with (fst (GET_call cfg s c now)) by now rewrite Hstep.
        apply GET_call_cache.
      + unfold settle in Hstep.
        destruct (nth_error (promises s) p) as [[ws|o]|]; try discriminate.
        injection Hstep as <- _. now destruct outcome. }
  intros s s' out Hrun. split; [now apply (Hlast evs s s' out)|].
  intros entry Hentry. rewrite (Hlast evs s s' out Hrun), Hentry.
  apply last_stored_Some.
Qed.

Lemma cache_holds_last_success_witness :
  exists s out,
    run default_config initial (sample_events 1700000000000) = Some (s, out)
    /\ cachedValue s
       = Some {| payload := sample_payload; cachedAtMs := 1700000000500 |}.
Proof.
  destruct (run default_config initial (sample_events 1700000000000))
    as [[s out]|] eqn:Hrun; [|vm_compute in Hrun; discriminate].
  exists s, out. split; [reflexivity|].
  destruct (cache_holds_last_success default_config _ _ s out Hrun)
    as [Hcache _].
  rewrite Hcache. reflexivity.
Defined.

(** ** Further properties of the pipeline *)

Lemma coingeckoHistorical_log cfg t up log :
  coingeckoHistorical (baseUrl_of cfg) (headers_of cfg) t (t / 1000) up log
  = (log ++ [rangeRequest cfg t],
     snd (coingeckoHistorical (baseUrl_of cfg) (headers_of cfg) t (t / 1000)
            up [])).
Proof.
  unfold coingeckoHistorical, bind, fetch, await, throw, ret.
  fold (rangeRequest cfg t). simpl.
  destruct (up (rangeRequest cfg t)) as [histRes|e]; auto.
  destruct (ok histRes).
  - destruct (json histRes) as [histJson|e]; auto.
    destruct (get_prop histJson "prices") as [| | | | |prices|]; auto.
    destruct (0 <? length prices)%nat; auto.
  - destruct (negb (status histRes =? 401)); auto.
Qed.

(** What the CoinGecko stage gives for an answer with a success status: the
    price selected in [prices], or nothing when [prices] is not a list. *)
Lemma coingeckoHistorical_ok cfg t up histRes :
  up (rangeRequest cfg t) = Return histRes -> ok histRes = true ->
  snd (coingeckoHistorical (baseUrl_of cfg) (headers_of cfg) t (t / 1000)
         up [])
  = match json histRes with
    | Return histJson =>
        Return match get_prop histJson "prices" with
               | JSArray prices => pickClosestPrice prices (Num.of_Z t)
               | _ => None
               end
    | Throw e => Throw e
    end.
Proof.
  intros Hup Hok. unfold coingeckoHistorical, bind, fetch, await, throw, ret.
  fold (rangeRequest cfg t). rewrite Hup, Hok.
  destruct (json histRes) as [histJson|e]; auto.
  destruct (get_prop histJson "prices") as [| | | | |prices|]; auto.
  destruct prices; reflexivity.
Qed.

Lemma historicalStage_log cfg t up log :
  In (fst (historicalStage cfg t (t / 1000) up log))
     (if truthy (COINGECKO_API_KEY cfg)
      then [log ++ [rangeRequest cfg t];
            log ++ [rangeRequest cfg t; candleRequest t]]
      else [log ++ [candleRequest t]]).
Proof.
  unfold historicalStage. unfold bind at 1.
  destruct (truthy (COINGECKO_API_KEY cfg)).
  - rewrite coingeckoHistorical_log.
    destruct (snd (coingeckoHistorical _ _ _ _ up [])) as [[h|]|e];
      cbv beta iota.
    + destruct (Num.leb h Num.zero); [|now left].
      right. left. rewrite coinbaseHistorical_log. cbn [fst].
      now rewrite <- app_assoc.
    + right. left. rewrite coinbaseHistorical_log. cbn [fst].
      now rewrite <- app_assoc.
    + now left.
  - unfold ret at 1. rewrite coinbaseHistorical_log. now left.
Qed.

(** X6.  The requests of a run.  Every run queries the primary price first
    and makes at most three requests: the primary alone, or the primary and
    then the historical lookups, which are the Coinbase candle query alone
    when no API key is set, and the CoinGecko range query, followed or not
    by the candle query, when one is.  Without a key the range endpoint is
    never queried. *)
Theorem requests_of_a_run cfg D now up :
  let primary := SimplePrice (baseUrl_of cfg) (headers_of cfg) in
  let range := rangeRequest cfg (twoYearsBefore D now) in
  let candle := candleRequest (twoYearsBefore D now) in
  let log := fst (run_pipeline cfg D now up) in
  (if truthy (COINGECKO_API_KEY cfg)
   then log = [primary] \/ log = [primary; range]
        \/ log = [primary; range; candle]
   else log = [primary] \/ log = [primary; candle])
  /\ (length log <= 3)%nat
  /\ (truthy (COINGECKO_API_KEY cfg) = false -> ~ In range log).
Proof.
  intros primary range candle log.
  assert (Hshape :
    In log (if truthy (COINGECKO_API_KEY cfg)
            then [[primary]; [primary; range]; [primary; range; candle]]
            else [[primary]; [primary; candle]])).
  { assert (Hfirst : In [primary]
                       (if truthy (COINGECKO_API_KEY cfg)
                        then [[primary]; [primary; range];
                              [primary; range; candle]]
                        else [[primary]; [primary; candle]]))
      by (destruct (truthy _); now left).
    subst log. unfold run_pipeline, fetchFromCoinGecko.
    unfold bind at 1, fetch at 1. cbn [app]. fold primary.
    destruct (up primary) as [currentRes|e]; [|exact Hfirst].
    destruct (ok currentRes); cbn [negb]; [|exact Hfirst].
    unfold bind at 1, await at 1.
    destruct (json currentRes) as [currentJson|e]; [|exact Hfirst].
    destruct (get_prop (get_prop currentJson "bitcoin") "usd")
      as [| | |cp| | |]; try exact Hfirst.
    destruct (Num.leb cp Num.zero); [exact Hfirst|].
    cbv zeta. unfold bind at 1.
    pose proof (historicalStage_log cfg (twoYearsBefore D now) up [primary])
      as Hlog. fold range candle in Hlog.
    destruct (historicalStage cfg _ _ up [primary]) as [log1 [hp|e]];
      cbn [fst] in *; destruct (truthy _); simpl in *; intuition. }
  split; [|split].
  - destruct (truthy _); simpl in Hshape; intuition.
  - destruct (truthy _); simpl in Hshape; intuition; subst log;
      match goal with H : _ = fst _ |- _ => rewrite <- H end; simpl; lia.
  - intros Hkey. rewrite Hkey in Hshape.
    unfold primary, range, candle, rangeRequest, candleRequest in *.
    simpl in Hshape. destruct Hshape as [H | [H | []]]; subst log;
      rewrite <- H; simpl; intuition discriminate.
Qed.

Lemma requests_of_a_run_witness :
  let now := 1700000000120 in
  let up := sample_upstream (Num.dec 650007 10) 401 (Num.dec 290004 10) in
  ~ In (rangeRequest default_config (twoYearsBefore UTC.date now))
       (fst (run_pipeline default_config UTC.date now up))
  /\ (length (fst (run_pipeline keyed_config UTC.date now up)) <= 3)%nat.
Proof.
  intros now up. split.
  - apply (requests_of_a_run default_config UTC.date now up). reflexivity.
  - apply (requests_of_a_run keyed_config UTC.date now up).
Defined.

(** X7.  Failures of the primary lookup.  Whatever goes wrong with the
    current price ends the run after its single request, before any
    historical lookup: a rejected [fetch] and a body that is not JSON with
    the error they raise, a failure status with [CoinGecko current price
    error: <status> <text>], and a body whose [bitcoin.usd] is missing, not
    a number, or not above zero with [Invalid current price payload from
    CoinGecko]. *)
Theorem primary_failure_modes cfg D now up :
  let primary := SimplePrice (baseUrl_of cfg) (headers_of cfg) in
  (forall e, up primary = Throw e ->
     run_pipeline cfg D now up = ([primary], Throw e))
  /\ (forall r, up primary = Return r -> ok r = false ->
     run_pipeline cfg D now up
     = ([primary],
        Throw (Error ("CoinGecko current price error: " ++ status_line r))))
  /\ (forall r e, up primary = Return r -> ok r = true -> json r = Throw e ->
     run_pipeline cfg D now up = ([primary], Throw e))
  /\ (forall r body,
     up primary = Return r -> ok r = true -> json r = Return body ->
     (forall cp, get_prop (get_prop body "bitcoin") "usd" = JSNumber cp ->
                 Num.leb cp Num.zero = true) ->
     run_pipeline cfg D now up
     = ([primary],
        Throw (Error "Invalid current price payload from CoinGecko"))).
Proof.
  intros primary. split; [|split; [|split]].
  - intros e Hup. unfold run_pipeline, fetchFromCoinGecko.
    unfold bind at 1, fetch at 1. fold primary. now rewrite Hup.
  - intros r Hup Hok.
    destruct (malformed_primary_fails cfg D now up r Hup) as [H _]. auto.
  - intros r e Hup Hok Hjson.
    destruct (malformed_primary_fails cfg D now up r Hup) as [_ H]. auto.
  - intros r body Hup Hok Hjson Hno.
    unfold run_pipeline, fetchFromCoinGecko.
    unfold bind at 1, fetch at 1. cbn [app]. fold primary.
    rewrite Hup, Hok. cbn [negb].
    unfold bind at 1, await at 1. rewrite Hjson.
    destruct (get_prop (get_prop body "bitcoin") "usd")
      as [| | |cp| | |] eqn:Husd; try reflexivity.
    now rewrite (Hno cp eq_refl).
Qed.

Lemma primary_failure_modes_witness :
  let up := fun _ : Request =>
              Return {| status := 429; statusText := "Too Many Requests";
                        json := Return JSNull |} in
  run_pipeline default_config UTC.date 1700000000120 up
  = ([SimplePrice "https://api.coingecko.com/api/v3" None],
     Throw (Error "CoinGecko current price error: 429 Too Many Requests")).
Proof.
  intros up.
  destruct (primary_failure_modes default_config UTC.date 1700000000120 up)
    as (_ & Hstatus & _).
  apply (Hstatus {| status := 429; statusText := "Too Many Requests";
                    json := Return JSNull |}); reflexivity.
Defined.

(** The run once the range query has been answered with a success status. *)
Lemma run_pipeline_range_ok cfg D now up cp histRes :
  truthy (COINGECKO_API_KEY cfg) = true ->
  primary_price cfg up cp ->
  Num.leb cp Num.zero = false ->
  up (rangeRequest cfg (twoYearsBefore D now)) = Return histRes ->
  ok histRes = true ->
  let t := twoYearsBefore D now in
  let primary := SimplePrice (baseUrl_of cfg) (headers_of cfg) in
  let fallback :=
    ([primary; rangeRequest cfg t; candleRequest t],
     match snd (coinbaseHistorical t (t / 1000) up []) with
     | Return close => Return (payload_of D t cp close)
     | Throw e => Throw e
     end) in
  run_pipeline cfg D now up
  = match json histRes with
    | Throw e => ([primary; rangeRequest cfg t], Throw e)
    | Return histJson =>
        match match get_prop histJson "prices" with
              | JSArray prices => pickClosestPrice prices (Num.of_Z t)
              | _ => None
              end with
        | Some h =>
            if Num.leb h Num.zero then fallback
            else ([primary; rangeRequest cfg t],
                  Return (payload_of D t cp h))
        | None => fallback
        end
    end.
Proof.
  intros Hkey Hprimary Hpos Hup Hok t primary fallback.
  rewrite (run_pipeline_primary cfg D now up cp Hprimary Hpos).
  fold t primary. unfold historicalStage. rewrite Hkey.
  unfold bind at 1 2. rewrite coingeckoHistorical_log.
  rewrite (coingeckoHistorical_ok cfg t up histRes Hup Hok).
  assert (Hfb : forall l,
    l = [primary; rangeRequest cfg t] ->
    (let (log', c) := coinbaseHistorical t (t / 1000) up l in
     match c with
     | Return a => ret (payload_of D t cp a) up log'
     | Throw e => (log', Throw e)
     end) = fallback).
  { intros l ->. rewrite coinbaseHistorical_log. subst fallback. simpl.
    now destruct (snd (coinbaseHistorical t (t / 1000) up [])). }
  destruct (json histRes) as [histJson|e]; [|reflexivity].
  destruct (match get_prop histJson "prices" with
            | JSArray prices => pickClosestPrice prices (Num.of_Z t)
            | _ => None
            end) as [h|].
  - destruct (Num.leb h Num.zero); [now apply Hfb|reflexivity].
  - now apply Hfb.
Qed.

(** X8.  A usable CoinGecko price ends the historical lookup.  With an API
    key set, when the range query is answered with a success status and the
    first data point of [prices] of minimal absolute time difference to the
    target instant, among the well-formed points whose difference is below
    Infinity, has a price above zero, that price, rounded, is
    [historicalPriceUsd], and the run makes two requests: Coinbase is not
    queried. *)
Theorem coingecko_price_used cfg D now up cp histRes histJson prices h :
  truthy (COINGECKO_API_KEY cfg) = true ->
  primary_price cfg up cp ->
  Num.leb cp Num.zero = false ->
  up (rangeRequest cfg (twoYearsBefore D now)) = Return histRes ->
  ok histRes = true ->
  json histRes = Return histJson ->
  get_prop histJson "prices" = JSArray prices ->
  first_closest price_candidate (Num.of_Z (twoYearsBefore D now)) prices h ->
  Num.leb h Num.zero = false ->
  run_pipeline cfg D now up
  = ([SimplePrice (baseUrl_of cfg) (headers_of cfg);
      rangeRequest cfg (twoYearsBefore D now)],
     Return (payload_of D (twoYearsBefore D now) cp h))
  /\ ~ In (candleRequest (twoYearsBefore D now))
          (fst (run_pipeline cfg D now up)).
Proof.
  intros Hkey Hprimary Hpos Hup Hok Hjson Hprices Hnear Hh.
  apply pickClosestPrice_spec in Hnear.
  pose proof (run_pipeline_range_ok cfg D now up cp histRes
                Hkey Hprimary Hpos Hup Hok) as Hrun.
  cbv zeta in Hrun. rewrite Hjson, Hprices, Hnear, Hh in Hrun.
  rewrite Hrun. split; [reflexivity|].
  unfold rangeRequest, candleRequest. simpl.
  intros [H | [H | []]]; discriminate.
Qed.

Lemma coingecko_price_used_witness :
  let now := 1700000000120 in
  let t := twoYearsBefore UTC.date now in
  let usd := Num.dec 650007 10 in
  let body := JSObject [("prices"%string, JSArray (price_points t))] in
  let up := keyed_upstream usd (Return body) (Num.of_Z 31500) in
  first_closest price_candidate (Num.of_Z t) (price_points t)
    (Num.of_Z 29000)
  /\ run_pipeline keyed_config UTC.date now up
     = ([SimplePrice "https://api.coingecko.com/api/v3"
           (Some "demo-key"%string);
         rangeRequest keyed_config t],
        Return (payload_of UTC.date t usd (Num.of_Z 29000))).
Proof.
  intros now t usd body up.
  assert (Hp : primary_price keyed_config up usd).
  { eexists _, _. repeat split. }
  assert (Hnear : first_closest price_candidate (Num.of_Z t) (price_points t)
                    (Num.of_Z 29000)).
  { apply pickClosestPrice_spec. vm_compute. reflexivity. }
  split; [exact Hnear|].
  apply (coingecko_price_used keyed_config UTC.date now up usd
           {| status := 200; statusText := "OK"; json := Return body |}
           body (price_points t) (Num.of_Z 29000)
           eq_refl Hp eq_refl eq_refl eq_refl eq_refl eq_refl Hnear).
  vm_compute. reflexivity.
Defined.

(** X9.  A success status without a usable price.  With an API key set,
    when the range query is answered with a success status but its body has
    no list under [prices], an empty list, or a nearest data point whose
    price is not above zero, the run goes on to the Coinbase candles as it
    does after a 401; when the body is not JSON the run ends with the
    parsing error and Coinbase is not queried. *)
Theorem coingecko_answer_without_price cfg D now up cp histRes :
  truthy (COINGECKO_API_KEY cfg) = true ->
  primary_price cfg up cp ->
  Num.leb cp Num.zero = false ->
  up (rangeRequest cfg (twoYearsBefore D now)) = Return histRes ->
  ok histRes = true ->
  let t := twoYearsBefore D now in
  let primary := SimplePrice (baseUrl_of cfg) (headers_of cfg) in
  (forall histJson,
      json histRes = Return histJson ->
      positive_number
        match get_prop histJson "prices" with
        | JSArray prices => pickClosestPrice prices (Num.of_Z t)
        | _ => None
        end = false ->
      run_pipeline cfg D now up
      = ([primary; rangeRequest cfg t; candleRequest t],
         match snd (coinbaseHistorical t (t / 1000) up []) with
         | Return close => Return (payload_of D t cp close)
         | Throw e => Throw e
         end))
  /\ (forall e,
      json histRes = Throw e ->
      run_pipeline cfg D now up = ([primary; rangeRequest cfg t], Throw e)).
Proof.
  intros Hkey Hprimary Hpos Hup Hok t primary.
  pose proof (run_pipeline_range_ok cfg D now up cp histRes
                Hkey Hprimary Hpos Hup Hok) as Hrun.
  cbv zeta in Hrun. fold t primary in Hrun. split.
  - intros histJson Hjson Hnone. rewrite Hjson in Hrun. rewrite Hrun.
    destruct (match get_prop histJson "prices" with
              | JSArray prices => pickClosestPrice prices (Num.of_Z t)
              | _ => None
              end) as [h|]; [|reflexivity].
    simpl in Hnone. apply negb_false_iff in Hnone. now rewrite Hnone.
  - intros e Hjson. now rewrite Hjson in Hrun.
Qed.

Lemma coingecko_answer_without_price_witness :
  let now := 1700000000120 in
  let t := twoYearsBefore UTC.date now in
  let usd := Num.dec 650007 10 in
  let close := Num.dec 290004 10 in
  run_pipeline keyed_config UTC.date now
    (keyed_upstream usd (Return (JSObject [])) close)
  = ([SimplePrice "https://api.coingecko.com/api/v3" (Some "demo-key"%string);
      rangeRequest keyed_config t; candleRequest t],
     Return (payload_of UTC.date t usd close))
  /\ run_pipeline keyed_config UTC.date now
       (keyed_upstream usd (Throw (Error "Unexpected token")) close)
     = ([SimplePrice "https://api.coingecko.com/api/v3"
           (Some "demo-key"%string);
         rangeRequest keyed_config t],
        Throw (Error "Unexpected token")).
Proof.
  intros now t usd close.
  assert (Hp : forall body,
            primary_price keyed_config (keyed_upstream usd body close) usd).
  { intros body. eexists _, _. repeat split. }
  split.
  - destruct (coingecko_answer_without_price keyed_config UTC.date now
                (keyed_upstream usd (Return (JSObject [])) close) usd
                {| status := 200; statusText := "OK";
                   json := Return (JSObject []) |}
                eq_refl (Hp _) eq_refl eq_refl eq_refl) as [Hfall _].
    rewrite (Hfall (JSObject []) eq_refl eq_refl).
    vm_compute. reflexivity.
  - destruct (coingecko_answer_without_price keyed_config UTC.date now
                (keyed_upstream usd (Throw (Error "Unexpected token")) close)
                usd
                {| status := 200; statusText := "OK";
                   json := Throw (Error "Unexpected token") |}
                eq_refl (Hp _) eq_refl eq_refl eq_refl) as [_ Hfatal].
    apply Hfatal. reflexivity.
Defined.

(** X10.  Failures of the candle lookup.  When the run reaches the Coinbase
    query (the CoinGecko stage, or its absence, having left no positive
    price), a rejected [fetch] and a body that is not JSON end the run with
    the error they raise, and a failure status ends it with [Coinbase
    candles error: <status> <text>]. *)
Theorem candle_failure_modes cfg D now up cp log0 fromCoinGecko :
  primary_price cfg up cp ->
  Num.leb cp Num.zero = false ->
  (if truthy (COINGECKO_API_KEY cfg)
   then coingeckoHistorical (baseUrl_of cfg) (headers_of cfg)
          (twoYearsBefore D now) (twoYearsBefore D now / 1000)
   else ret None) up [SimplePrice (baseUrl_of cfg) (headers_of cfg)]
  = (log0, Return fromCoinGecko) ->
  positive_number fromCoinGecko = false ->
  let candle := candleRequest (twoYearsBefore D now) in
  (forall e, up candle = Throw e ->
     run_pipeline cfg D now up = (log0 ++ [candle], Throw e))
  /\ (forall r, up candle = Return r -> ok r = false ->
     run_pipeline cfg D now up
     = (log0 ++ [candle],
        Throw (Error ("Coinbase candles error: " ++ status_line r))))
  /\ (forall r e, up candle = Return r -> ok r = true -> json r = Throw e ->
     run_pipeline cfg D now up = (log0 ++ [candle], Throw e)).
Proof.
  intros Hprimary Hpos Hstage Hnone candle.
  set (t := twoYearsBefore D now) in *.
  assert (Hrun : run_pipeline cfg D now up
                 = (log0 ++ [candle],
                    match snd (coinbaseHistorical t (t / 1000) up []) with
                    | Return close => Return (payload_of D t cp close)
                    | Throw e => Throw e
                    end)).
  { rewrite (run_pipeline_primary cfg D now up cp Hprimary Hpos).
    fold t. unfold historicalStage. unfold bind at 1 2. rewrite Hstage.
    assert (Hfall : match fromCoinGecko with
                    | Some h => if Num.leb h Num.zero
                                then coinbaseHistorical t (t / 1000) else ret h
                    | None => coinbaseHistorical t (t / 1000)
                    end = coinbaseHistorical t (t / 1000)).
    { destruct fromCoinGecko as [h|]; auto. simpl in Hnone.
      apply negb_false_iff in Hnone. now rewrite Hnone. }
    rewrite Hfall, coinbaseHistorical_log. fold candle.
    now destruct (snd (coinbaseHistorical t (t / 1000) up [])). }
  rewrite Hrun.
  unfold coinbaseHistorical, bind, fetch, await, throw. fold (candleRequest t).
  fold candle. cbn [snd]. split; [|split].
  - now intros e ->.
  - now intros r -> ->.
  - intros r e -> -> Hjson. cbn [negb]. now rewrite Hjson.
Qed.

Lemma candle_failure_modes_witness :
  let now := 1700000000120 in
  let usd := Num.dec 650007 10 in
  run_pipeline default_config UTC.date now (coinbase_down usd 503)
  = ([SimplePrice "https://api.coingecko.com/api/v3" None;
      candleRequest (twoYearsBefore UTC.date now)],
     Throw (Error "Coinbase candles error: 503 Service Unavailable")).
Proof.
  intros now usd.
  assert (Hp : primary_price default_config (coinbase_down usd 503) usd).
  { eexists _, _. repeat split. }
  destruct (candle_failure_modes default_config UTC.date now
              (coinbase_down usd 503) usd
              [SimplePrice "https://api.coingecko.com/api/v3" None] None
              Hp eq_refl eq_refl eq_refl) as (_ & Hstatus & _).
  apply (Hstatus {| status := 503; statusText := "Service Unavailable";
                    json := Return JSNull |}); reflexivity.
Defined.
(** ** Where a failure comes from *)

Lemma coinbaseHistorical_Throw t up log log' e :
  coinbaseHistorical t (t / 1000) up log = (log', Throw e) ->
  raised_by up (candleRequest t) e
  \/ exists r, up (candleRequest t) = Return r
               /\ In e (map Error (pipeline_messages r)).
Proof.
  unfold coinbaseHistorical, bind, fetch, await, throw, ret.
  fold (candleRequest t). unfold raised_by.
  destruct (up (candleRequest t)) as [r|e0] eqn:Hup.
  2:{ intros H. injection H as _ <-. now left; left. }
  destruct (ok r) eqn:Hok; cbn [negb].
  2:{ intros H. injection H as _ <-. right. exists r. simpl. tauto. }
  destruct (json r) as [body|e0] eqn:Hjson.
  2:{ intros H. injection H as _ <-. left; right. now exists r. }
  intros H. right. exists r. split; [reflexivity|].
  destruct body as [| | | | |cs|]; try (injection H as _ <-; simpl; tauto).
  destruct (length cs =? 0)%nat; [injection H as _ <-; simpl; tauto|].
  destruct (pickClosestCandleClose cs _) as [close|];
    [|injection H as _ <-; simpl; tauto].
  destruct (Num.leb close Num.zero); [|discriminate].
  injection H as _ <-; simpl; tauto.
Qed.

Lemma coingeckoHistorical_Throw cfg t up log log' e :
  coingeckoHistorical (baseUrl_of cfg) (headers_of cfg) t (t / 1000) up log
  = (log', Throw e) ->
  raised_by up (rangeRequest cfg t) e
  \/ exists r, up (rangeRequest cfg t) = Return r
               /\ In e (map Error (pipeline_messages r)).
Proof.
  unfold coingeckoHistorical, bind, fetch, await, throw, ret.
  fold (rangeRequest cfg t). unfold raised_by.
  destruct (up (rangeRequest cfg t)) as [r|e0] eqn:Hup.
  2:{ intros H. injection H as _ <-. now left; left. }
  destruct (ok r) eqn:Hok.
  - destruct (json r) as [body|e0] eqn:Hjson.
    2:{ intros H. injection H as _ <-. left; right. now exists r. }
    destruct (get_prop body "prices") as [| | | | |prices|];
      try discriminate.
    destruct (0 <? length prices)%nat; discriminate.
  - destruct (status r =? 401); cbn [negb]; [discriminate|].
    intros H. injection H as _ <-. right. exists r. simpl. tauto.
Qed.

Lemma pipeline_message_nonempty r e :
  In e (map Error (pipeline_messages r)) ->
  name e = "Error"%string /\ error_message e = message e.
Proof.
  intros H. apply in_map_iff in H as (msg & <- & Hin).
  split; [reflexivity|].
  unfold error_message, pipeline_messages, undetermined in *.
  simpl in Hin.
  destruct Hin as [<-|[<-|[<-|[<-|[<-|[<-|[]]]]]]]; reflexivity.
Qed.

(** X11.  Where a failure of the pipeline comes from.  When a run fails, the
    failure is about the last request it made: either the runtime raised the
    error there ([fetch] rejected, or a successful response had a body that
    is not JSON), or the request was answered and the pipeline threw one of
    its own six errors about that answer.  An error of the second kind has a
    message that is not empty, so the body of the 502 response that [GET]
    builds from it is that message, word for word. *)
Theorem failure_provenance cfg D now up log e :
  run_pipeline cfg D now up = (log, Throw e) ->
  exists log' req,
    log = log' ++ [req]
    /\ (raised_by up req e
        \/ exists r,
             up req = Return r
             /\ In e (map Error (pipeline_messages r))
             /\ GET_resume cfg (Throw e)
                = Return (errJson (message e) 502 "MISS")).
Proof.
  intros Hrun.
  assert (Hown : forall r, In e (map Error (pipeline_messages r)) ->
            GET_resume cfg (Throw e)
            = Return (errJson (message e) 502 "MISS")).
  { intros r Hin. apply pipeline_message_nonempty in Hin as [_ Hm].
    unfold GET_resume. cbn. now rewrite Hm. }
  set (primary := SimplePrice (baseUrl_of cfg) (headers_of cfg)).
  set (t := twoYearsBefore D now).
  assert (Hend : forall log0 req,
            log = log0 ++ [req] ->
            (raised_by up req e
             \/ exists r, up req = Return r
                          /\ In e (map Error (pipeline_messages r))) ->
            exists log' req,
              log = log' ++ [req]
              /\ (raised_by up req e
                  \/ exists r,
                       up req = Return r
                       /\ In e (map Error (pipeline_messages r))
                       /\ GET_resume cfg (Throw e)
                          = Return (errJson (message e) 502 "MISS"))).
  { intros log0 req Hlog [Hr|(r & Hup & Hin)]; exists log0, req;
      (split; [exact Hlog|]); [now left|].
    right. exists r. eauto. }
  revert Hrun. unfold run_pipeline, fetchFromCoinGecko.
  unfold bind at 1, fetch at 1. cbn [app]. fold primary.
  destruct (up primary) as [r|e0] eqn:Hup.
  2:{ intros H. injection H as <- <-.
      apply (Hend [] primary eq_refl). now left; left. }
  destruct (ok r) eqn:Hok; cbn [negb].
  2:{ unfold throw. intros H. injection H as <- <-.
      apply (Hend [] primary eq_refl). right. exists r. simpl. tauto. }
  unfold bind at 1, await at 1.
  destruct (json r) as [body|e0] eqn:Hjson.
  2:{ intros H. injection H as <- <-.
      apply (Hend [] primary eq_refl). left; right. now exists r. }
  assert (Hinvalid :
            ([primary],
             @Throw PricePayload
               (Error "Invalid current price payload from CoinGecko"))
            = (log, Throw e) ->
            exists log' req,
              log = log' ++ [req]
              /\ (raised_by up req e
                  \/ exists r,
                       up req = Return r
                       /\ In e (map Error (pipeline_messages r))
                       /\ GET_resume cfg (Throw e)
                          = Return (errJson (message e) 502 "MISS"))).
  { intros H. injection H as <- <-.
    apply (Hend [] primary eq_refl). right. exists r. simpl. tauto. }
  destruct (get_prop (get_prop body "bitcoin") "usd") as [| | |cp| | |];
    try exact Hinvalid.
  destruct (Num.leb cp Num.zero); [exact Hinvalid|].
  cbv zeta. fold t. unfold bind at 1, historicalStage.
  unfold bind at 1.
  destruct (truthy (COINGECKO_API_KEY cfg)).
  - pose proof (f_equal fst (coingeckoHistorical_log cfg t up [primary]))
      as Hlog1.
    destruct (coingeckoHistorical _ _ t (t / 1000) up [primary])
      as [log1 [fromCoinGecko|e1]] eqn:Hcg.
    2:{ intros H. injection H as <- <-. cbn [fst] in Hlog1.
        apply (Hend [primary] (rangeRequest cfg t) Hlog1).
        now apply (coingeckoHistorical_Throw cfg t up [primary] log1). }
    cbn [fst] in Hlog1.
    assert (Hcb : forall res,
              (let (log2, c) := coinbaseHistorical t (t / 1000) up log1 in
               match c with
               | Return a =>
                   ret {| currentPriceUsd := Num.Math_round cp;
                          historicalPriceUsd := Num.Math_round a;
                          historicalTargetDate := toISOString D t |} up log2
               | Throw e2 => (log2, Throw e2)
               end) = res -> res = (log, Throw e) ->
              exists log' req,
                log = log' ++ [req]
                /\ (raised_by up req e
                    \/ exists r,
                         up req = Return r
                         /\ In e (map Error (pipeline_messages r))
                         /\ GET_resume cfg (Throw e)
                            = Return (errJson (message e) 502 "MISS"))).
    { intros res <-.
      pose proof (f_equal fst (coinbaseHistorical_log t (t / 1000) up log1))
        as Hlog2.
      destruct (coinbaseHistorical t (t / 1000) up log1)
        as [log2 [close|e2]] eqn:Hcb; [discriminate|].
      intros H. injection H as <- <-. cbn [fst] in Hlog2.
      apply (Hend log1 (candleRequest t) Hlog2).
      now apply (coinbaseHistorical_Throw t up log1 log2). }
    destruct fromCoinGecko as [h|]; [|now apply Hcb].
    destruct (Num.leb h Num.zero); [now apply Hcb|discriminate].
  - unfold ret at 1.
    pose proof (f_equal fst (coinbaseHistorical_log t (t / 1000) up [primary]))
      as Hlog2.
    destruct (coinbaseHistorical t (t / 1000) up [primary])
      as [log2 [close|e2]] eqn:Hcb; [discriminate|].
    intros H. injection H as <- <-. cbn [fst] in Hlog2.
    apply (Hend [primary] (candleRequest t) Hlog2).
    now apply (coinbaseHistorical_Throw t up [primary] log2).
Qed.

Lemma failure_provenance_witness :
  let now := 1700000000120 in
  let up := coinbase_down (Num.dec 650007 10) 503 in
  exists log e log' req,
    run_pipeline default_config UTC.date now up = (log, Throw e)
    /\ log = log' ++ [req].
Proof.
  intros now up.
  destruct (run_pipeline default_config UTC.date now up)
    as [log [p|e]] eqn:Hrun; [vm_compute in Hrun; discriminate|].
  destruct (failure_provenance default_config UTC.date now up log e Hrun)
    as (log' & req & Hlog & _).
  exists log, e, log', req. split; [reflexivity|exact Hlog].
Defined.
(** * The calculator page *)

Lemma number_truthy_positive (x : number) :
  Num.ltb Num.zero x = true -> number_truthy x = true.
Proof. destruct x as [s|s| |s m e]; try reflexivity; discriminate. Qed.

Lemma set_and_positive_Some (x : option number) :
  Client.set_and_positive x = true <-> exists v, x = Some v /\ is_positive v.
Proof.
  unfold Client.set_and_positive, is_positive. split.
  - destruct x as [v|]; [|discriminate].
    intros H. apply andb_true_iff in H as [_ H]. now exists v.
  - intros (v & -> & H). now rewrite H, (number_truthy_positive v H).
Qed.

Lemma received_Return ToString res c h :
  Client.received ToString res = Return (c, h) ->
  exists r data,
    res = Return r /\ ok r = true /\ json r = Return data
    /\ get_prop data "currentPriceUsd" = JSNumber c
    /\ Num.leb c Num.zero = false
    /\ get_prop data "historicalPriceUsd" = JSNumber h
    /\ Num.leb h Num.zero = false.
Proof.
  unfold Client.received. destruct res as [r|e]; [|discriminate].
  destruct (json r) as [data|e] eqn:Hjson; [|discriminate].
  destruct (ok r) eqn:Hok; cbn [negb].
  2:{ destruct (js_truthy _); discriminate. }
  destruct (get_prop data "currentPriceUsd") as [| | |c'| | |] eqn:Hc;
    try discriminate.
  destruct (Num.leb c' Num.zero) eqn:Hcle; [discriminate|].
  destruct (get_prop data "historicalPriceUsd") as [| | |h'| | |] eqn:Hh;
    try discriminate.
  destruct (Num.leb h' Num.zero) eqn:Hhle; [discriminate|].
  intros H. injection H as <- <-. exists r, data. auto 10.
Qed.

Lemma json_number_positive data k x :
  is_json data = true -> get_prop data k = JSNumber x ->
  Num.leb x Num.zero = false -> is_positive x.
Proof.
  intros Hj Hk Hle. apply leb_zero_false_ltb; [|exact Hle].
  assert (H : is_json (JSNumber x) = true).
  { apply (get_prop_is_json data k _ Hj Hk). discriminate. }
  simpl in H. now apply negb_true_iff in H.
Qed.

Lemma positive_not_nan (x : number) : is_positive x -> Num.is_nan x = false.
Proof. unfold is_positive. destruct x; auto; discriminate. Qed.

Lemma finite_not_nan (x : number) :
  Number_isFinite x = true -> Num.is_nan x = false.
Proof. destruct x; auto; discriminate. Qed.

Lemma step_page_inv ToString s ev :
  Client.parsed ev -> Client.page_inv s ->
  Client.page_inv (Client.step ToString s ev).
Proof.
  intros Hev (Hh & Hc & Hu). destruct ev as [|res now|raw]; simpl.
  - now split; [|split].
  - unfold Client.fetchPrices_done.
    destruct (Client.received ToString res) as [[c h]|e] eqn:Hres.
    + apply received_Return in Hres
        as (r & data & -> & _ & Hjson & Hgc & Hcle & Hgh & Hhle).
      simpl in Hev. specialize (Hev data Hjson).
      split; [|split]; simpl.
      * intros h' H. injection H as <-. eauto using json_number_positive.
      * intros c' H. injection H as <-. right.
        eauto using json_number_positive.
      * split; discriminate.
    + now split; [|split].
  - split; [exact Hh|]. split; [|exact Hu]. simpl.
    destruct raw as [n|]; [|discriminate].
    destruct (Number_isFinite n) eqn:Hn; [|discriminate].
    intros c H. injection H as <-. now left.
Qed.

Lemma run_page_inv ToString evs : forall s,
  Forall Client.parsed evs -> Client.page_inv s ->
  Client.page_inv (Client.run ToString s evs).
Proof.
  induction evs as [|ev evs IH]; intros s Hevs Hs; [exact Hs|].
  inversion Hevs as [|? ? Hev Hevs']; subst. simpl.
  apply IH; [exact Hevs'|]. now apply step_page_inv.
Qed.

(** X12.  The prices of the page.  Whatever fetches settle (with bodies that
    are parsed JSON) and whatever the user types, the historical price of
    the page is [null] or a positive number, and it is set exactly when
    [lastUpdated] is; the current price is never NaN; and
    [historicalMultiplier] is a number only when both prices are positive,
    the quotient of the current by the historical price, so never before a
    fetch has succeeded. *)
Theorem page_prices_invariant ToString evs :
  Forall Client.parsed evs ->
  let s := Client.run ToString Client.initial evs in
  (forall h, Client.historicalBtcPrice s = Some h -> is_positive h)
  /\ (forall c, Client.currentBtcPrice s = Some c -> Num.is_nan c = false)
  /\ (Client.lastUpdated s = None <-> Client.historicalBtcPrice s = None)
  /\ (forall m, Client.historicalMultiplier s = Some m ->
        exists c h,
          Client.currentBtcPrice s = Some c
          /\ Client.historicalBtcPrice s = Some h
          /\ is_positive c /\ is_positive h
          /\ m = Num.div c h
          /\ Client.lastUpdated s <> None).
Proof.
  intros Hevs s.
  assert (Hinv : Client.page_inv s).
  { apply run_page_inv; [exact Hevs|].
    split; [discriminate|]. split; [discriminate|]. now split. }
  destruct Hinv as (Hh & Hc & Hu).
  split; [exact Hh|]. split; [|split; [exact Hu|]].
  - intros c H. destruct (Hc c H);
      auto using finite_not_nan, positive_not_nan.
  - intros m. unfold Client.historicalMultiplier.
    destruct (Client.set_and_positive (Client.historicalBtcPrice s))
      eqn:Hph; [|discriminate].
    destruct (Client.set_and_positive (Client.currentBtcPrice s))
      eqn:Hpc; [|discriminate].
    apply set_and_positive_Some in Hph as (h & Hhs & Hhp).
    apply set_and_positive_Some in Hpc as (c & Hcs & Hcp).
    rewrite Hhs, Hcs. simpl. intros H. injection H as <-.
    exists c, h. repeat (split; [auto; fail|]).
    intros Hnone. apply Hu in Hnone. congruence.
Qed.

Lemma page_prices_invariant_witness :
  let s := Client.run no_ToString Client.initial page_events in
  Client.lastUpdated s = None <-> Client.historicalBtcPrice s = None.
Proof.
  apply (page_prices_invariant no_ToString page_events).
  repeat constructor; simpl; intros data H; injection H as <-; reflexivity.
Defined.

Lemma error_message_nonempty e :
  String.eqb (error_message e) EmptyString = false.
Proof.
  unfold error_message.
  destruct (String.eqb (message e) EmptyString) eqn:H; [reflexivity|exact H].
Qed.

Lemma ok_502 text r : http_status r = 502 -> ok (wire text r) = false.
Proof. unfold ok, wire. simpl. now intros ->. Qed.

(** X13.  The message of a failed refresh reaches the user.  When the
    route answers a failed refresh, the page that receives the answer shows
    [API Error: ] followed by the message of the error the pipeline threw
    (or by the route's own [Server error fetching CoinGecko prices: ...]
    when that message is empty); it never falls back on [Price API error:
    <status>], stops loading, and keeps the prices and the update time it
    had. *)
Theorem route_error_reaches_page ToString cfg e text s now r :
  GET_resume cfg (Throw e) = Return r ->
  Client.fetchPrices_done ToString s (Return (wire text r)) now
  = Client.rejected s (error_message e)
  /\ (String.eqb (message e) EmptyString = false ->
      Client.priceError
        (Client.fetchPrices_done ToString s (Return (wire text r)) now)
      = Some ("API Error: " ++ message e)%string).
Proof.
  intros Hr. unfold GET_resume in Hr. simpl in Hr. injection Hr as <-.
  assert (Hdone :
    Client.fetchPrices_done ToString s
      (Return (wire text (errJson (error_message e) 502 "MISS"))) now
    = Client.rejected s (error_message e)).
  { unfold Client.fetchPrices_done, Client.received.
    cbn [json wire errJson http_body wire_body].
    rewrite ok_502 by reflexivity. cbn [negb].
    cbn [get_prop find fst snd].
    rewrite String.eqb_refl. cbn [snd js_truthy].
    rewrite error_message_nonempty. reflexivity. }
  split; [exact Hdone|].
  intros Hm. rewrite Hdone. unfold Client.rejected. cbn [Client.priceError].
  unfold error_message. now rewrite Hm.
Qed.

Lemma route_error_reaches_page_witness :
  Client.priceError
    (Client.fetchPrices_done no_ToString loaded_page
       (Return (wire "Bad Gateway"
                  (errJson "Coinbase candles error: 503 Service Unavailable"
                     502 "MISS")))
       1700000001000)
  = Some ("API Error: Coinbase candles error: 503 Service Unavailable")%string.
Proof.
  destruct (route_error_reaches_page no_ToString default_config
              (Error "Coinbase candles error: 503 Service Unavailable")
              "Bad Gateway" loaded_page 1700000001000 _ eq_refl) as [_ H].
  apply H. reflexivity.
Defined.

(** ** A payload of the route on the page *)

Lemma wire_payload_current p :
  get_prop (wire_body (PayloadBody p)) "currentPriceUsd"
  = wire_number (currentPriceUsd p).
Proof. reflexivity. Qed.

Lemma wire_payload_historical p :
  get_prop (wire_body (PayloadBody p)) "historicalPriceUsd"
  = wire_number (historicalPriceUsd p).
Proof. reflexivity. Qed.

Lemma received_okJson ToString cfg p text cacheStatus :
  Client.received ToString (Return (wire text (okJson cfg p cacheStatus)))
  = match wire_number (currentPriceUsd p) with
    | JSNumber c =>
        if Num.leb c Num.zero
        then Throw (Error "Invalid current price from price API")
        else
          match wire_number (historicalPriceUsd p) with
          | JSNumber h =>
              if Num.leb h Num.zero
              then Throw (Error "Invalid historical price from price API")
              else Return (c, h)
          | _ => Throw (Error "Invalid historical price from price API")
          end
    | _ => Throw (Error "Invalid current price from price API")
    end.
Proof.
  unfold Client.received. cbn [json wire okJson http_body].
  change (ok (wire text (okJson cfg p cacheStatus))) with true. cbn [negb].
  now rewrite wire_payload_current, wire_payload_historical.
Qed.

(** An integral number on the wire: one that is at least 1 arrives as it
    is and passes the guard of the page; one that is at most 0 arrives as a
    number that fails it. *)
Lemma finite_integral_sign s m e k :
  Num.to_Z (S754_finite s m e) = Some k -> if s then k < 0 else 0 < k.
Proof.
  unfold Num.to_Z. destruct (0 <=? e) eqn:He.
  - apply Z.leb_le in He. intros H.
    assert (Hk : k = cond_Zopp s (Zpos m * 2 ^ e)) by congruence.
    assert (0 < 2 ^ e) by (apply Z.pow_pos_nonneg; lia).
    assert (0 < Zpos m * 2 ^ e) by (apply Z.mul_pos_pos; lia).
    rewrite Hk. destruct s; unfold cond_Zopp; cbv iota; lia.
  - apply Z.leb_gt in He.
    destruct (Zpos m mod 2 ^ (- e) =? 0) eqn:Hmod; [|discriminate].
    apply Z.eqb_eq in Hmod. intros H.
    assert (Hk : k = cond_Zopp s (Zpos m / 2 ^ (- e))) by congruence.
    assert (Hd : 0 < 2 ^ (- e)) by (apply Z.pow_pos_nonneg; lia).
    assert (0 < Zpos m / 2 ^ (- e)).
    { pose proof (Z.div_mod (Zpos m) (2 ^ (- e)) ltac:(lia)) as Hdm.
      rewrite Hmod, Z.add_0_r in Hdm.
      destruct (Z.lt_trichotomy 0 (Zpos m / 2 ^ (- e)))
        as [H'|[H'|H']]; [exact H'| |]; nia. }
    rewrite Hk. destruct s; unfold cond_Zopp; cbv iota; lia.
Qed.

Lemma wire_integral (y : number) (n : Z) :
  Num.to_Z y = Some n ->
  (1 <= n -> wire_number y = JSNumber y /\ Num.leb y Num.zero = false)
  /\ (n <= 0 -> exists y', wire_number y = JSNumber y'
                           /\ Num.leb y' Num.zero = true).
Proof.
  destruct y as [s|s| |s m e]; try discriminate.
  - intros H. injection H as <-. split; [lia|].
    intros _. exists Num.zero. now split.
  - intros Hn. pose proof (finite_integral_sign s m e n Hn) as Hpos. split.
    + intros H1. destruct s; [lia|]. now split.
    + intros H0. destruct s; [|lia]. eexists. split; reflexivity.
Qed.

Lemma nearest_integer_unique (x : number) (n n' : Z) :
  Num.nearest_integer x n -> Num.nearest_integer x n' -> n = n'.
Proof.
  unfold Num.nearest_integer.
  destruct x as [s|s| |s m e]; try tauto; try congruence.
  destruct (0 <=? e) eqn:He; [congruence|].
  apply Z.leb_gt in He.
  assert (Hd : 0 < 2 ^ (- e)) by (apply Z.pow_pos_nonneg; lia).
  set (d := 2 ^ (- e)) in *. set (z := cond_Zopp s (Zpos m)).
  intros [H1 H2] [H3 H4].
  assert (Ha : (2 * n - 1) * d < (2 * n' + 1) * d) by lia.
  assert (Hb : (2 * n' - 1) * d < (2 * n + 1) * d) by lia.
  apply Z.mul_lt_mono_pos_r in Ha; [|exact Hd].
  apply Z.mul_lt_mono_pos_r in Hb; [|exact Hd].
  lia.
Qed.

(** One half or more, read off the rounded number. *)
Lemma half_or_more_rounded (x : number) (n : Z) :
  Num.valid x = true -> Num.to_Z (Num.Math_round x) = Some n ->
  Client.half_or_more x <-> 1 <= n.
Proof.
  intros Hv Hn. pose proof (NumRound.Math_round_rounded x Hv) as Hr.
  unfold Client.half_or_more.
  assert (Hnear : Num.nearest_integer x n).
  { destruct x as [s|s| |s m e]; try discriminate;
      destruct Hr as (n0 & Hn0 & Hnear); congruence. }
  split.
  - intros (k & Hk & Hk').
    now rewrite (nearest_integer_unique _ _ _ Hk' Hnear) in Hk.
  - intros H. now exists n.
Qed.

(** A rounded price on the wire. *)
Lemma wire_rounded (x : number) :
  Num.valid x = true ->
  (Client.half_or_more x ->
   wire_number (Num.Math_round x) = JSNumber (Num.Math_round x)
   /\ Num.leb (Num.Math_round x) Num.zero = false)
  /\ (~ Client.half_or_more x ->
      wire_number (Num.Math_round x) = JSNull
      \/ exists y', wire_number (Num.Math_round x) = JSNumber y'
                    /\ Num.leb y' Num.zero = true).
Proof.
  intros Hv. pose proof (NumRound.Math_round_rounded x Hv) as Hr.
  unfold Client.half_or_more.
  destruct x as [s|s| |s m e].
  - destruct Hr as (n & Hn & Hnear). split.
    + intros (k & Hk & Hk'). simpl in Hk'. lia.
    + intros _. right. exists Num.zero. now split.
  - split; [intros (k & _ & []) | now left].
  - split; [intros (k & _ & []) | now left].
  - destruct Hr as (n & Hn & Hnear).
    destruct (wire_integral _ n Hn) as [Hge Hle]. split.
    + intros (k & Hk & Hk').
      rewrite (nearest_integer_unique _ _ _ Hk' Hnear) in Hk. auto.
    + intros Hnot. right. apply Hle.
      destruct (Z_lt_le_dec 0 n) as [H|H]; [|exact H].
      exfalso. apply Hnot. exists n. split; [lia|exact Hnear].
Qed.

(** X14.  A payload of the route, back on the page.  A successful run
    answers with [Math.round] of the two fetched prices, and the page
    checks those again.  For prices in the canonical form of the format: if
    both are one half or more, the page takes the two rounded prices, sets
    [lastUpdated] and clears the error; if the current price is below one
    half, or is infinite, the page rejects the route's 200 response with
    [Invalid current price from price API] and keeps what it had, and
    likewise for the historical price. *)
Theorem page_accepts_half_or_more ToString cfg D t cp hp text cacheStatus
    s now :
  Num.valid cp = true -> Num.valid hp = true ->
  let res := Return (wire text (okJson cfg (payload_of D t cp hp)
                                  cacheStatus)) in
  (Client.half_or_more cp -> Client.half_or_more hp ->
   Client.fetchPrices_done ToString s res now
   = Client.accepted (Num.Math_round cp) (Num.Math_round hp) now)
  /\ (~ Client.half_or_more cp ->
      Client.fetchPrices_done ToString s res now
      = Client.rejected s "Invalid current price from price API")
  /\ (Client.half_or_more cp -> ~ Client.half_or_more hp ->
      Client.fetchPrices_done ToString s res now
      = Client.rejected s "Invalid historical price from price API").
Proof.
  intros Hcv Hhv res. subst res.
  unfold Client.fetchPrices_done. rewrite received_okJson.
  cbn [payload_of currentPriceUsd historicalPriceUsd].
  destruct (wire_rounded cp Hcv) as [Hc1 Hc0].
  destruct (wire_rounded hp Hhv) as [Hh1 Hh0].
  split; [|split].
  - intros Hc Hh. destruct (Hc1 Hc) as [-> ->]. destruct (Hh1 Hh) as [-> ->].
    reflexivity.
  - intros Hc. destruct (Hc0 Hc) as [->|(y' & -> & ->)]; reflexivity.
  - intros Hc Hh. destruct (Hc1 Hc) as [-> ->].
    destruct (Hh0 Hh) as [->|(y' & -> & ->)]; reflexivity.
Qed.

Lemma page_accepts_half_or_more_witness :
  let t := twoYearsBefore UTC.date 1700000000000 in
  snd (run_pipeline default_config UTC.date 1700000000000 tiny_upstream)
  = Return (payload_of UTC.date t (Num.dec 3 10) (Num.dec 4 10))
  /\ Client.fetchPrices_done no_ToString loaded_page
       (Return (wire "OK" (okJson default_config
                             (payload_of UTC.date t (Num.dec 3 10)
                                (Num.dec 4 10)) "MISS")))
       1700000001000
     = Client.rejected loaded_page "Invalid current price from price API".
Proof.
  intros t. split; [vm_compute; reflexivity|].
  apply (page_accepts_half_or_more no_ToString default_config UTC.date t
           (Num.dec 3 10) (Num.dec 4 10) "OK" "MISS" loaded_page
           1700000001000);
    [vm_compute; reflexivity | vm_compute; reflexivity |].
  intros Hhalf.
  apply (half_or_more_rounded (Num.dec 3 10) 0) in Hhalf;
    [lia | vm_compute; reflexivity | vm_compute; reflexivity].
Defined.
